(** * ikspread scheduler: market-hours oracle, scheduler and orchestrator

    A shallow embedding of the scheduler module of the repository:
    [types.ts], [market-hours.ts], [scheduler.ts] and [orchestrator.ts].

    Modelling conventions.
    - A JavaScript [Date] is its time value: milliseconds since the epoch,
      read in the process-local zone, which the source takes to be the
      market's zone and which is modelled without daylight-saving shifts.
    - JavaScript numbers that the code uses as counters, minutes and
      priorities are integers ([Z] or [nat]).
    - The task registry is a JavaScript [Map]: an association list in
      insertion order; [set] on a present key keeps the key's position.
    - [while] loops take fuel. The oracle answers [None] when a loop did
      not finish within the fuel, or when a time string is not made of
      decimal digits around a colon (the fragment of [Number] that is
      modelled).
    - A task body acts on the world (the clock and an environment), not on
      the scheduler. The clock is read from the world: it moves while a
      task body runs and between operations, not between two reads that no
      [await] separates.
    - One cycle ([runTasks]) runs to completion before the next operation:
      the interleaving of overlapping asynchronous cycles is not modelled.
    - [console] output is omitted. *)

From Stdlib Require Import ZArith List String Ascii Bool Lia.
From Stdlib Require Import DecimalString DecimalZ Permutation Sorted.
Import ListNotations.

Local Open Scope string_scope.
Local Open Scope list_scope.
Local Open Scope Z_scope.

(** ** JavaScript built-ins used by the code *)

Module JS.

(** [String(n)] for an integer number. *)
Definition String_of_number (n : Z) : string :=
  NilEmpty.string_of_int (Z.to_int n).

Fixpoint repeat_char (c : ascii) (n : nat) : string :=
  match n with
  | O => EmptyString
  | S k => String c (repeat_char c k)
  end.

(** [s.padStart(n, c)] for a one-character pad string. *)
Definition padStart (n : nat) (c : ascii) (s : string) : string :=
  repeat_char c (n - String.length s) ++ s.

(** [s.split(c)] for a one-character separator. *)
Fixpoint split_aux (c : ascii) (s : string) (cur : string) : list string :=
  match s with
  | EmptyString => [cur]
  | String a rest =>
      if Ascii.eqb a c then cur :: split_aux c rest EmptyString
      else split_aux c rest (cur ++ String a EmptyString)
  end.

Definition split (c : ascii) (s : string) : list string :=
  split_aux c s EmptyString.

(** [Number(s)] on a string of decimal digits (the empty string is 0).
    Other strings are outside the modelled fragment: [None]. *)
Definition Number (s : string) : option Z :=
  option_map Z.of_uint (NilEmpty.uint_of_string s).

(** [xs.includes(x)] on numbers and on strings. *)
Definition includesZ (xs : list Z) (x : Z) : bool :=
  existsb (Z.eqb x) xs.

Definition includesS (xs : list string) (x : string) : bool :=
  existsb (String.eqb x) xs.

(** *** Date (ECMA-262, "Time Values and Time Range") *)

Definition Date := Z.

Definition msPerDay : Z := 86400000.
Definition msPerHour : Z := 3600000.
Definition msPerMinute : Z := 60000.

Definition Day (t : Date) : Z := t / msPerDay.
Definition TimeWithinDay (t : Date) : Z := t mod msPerDay.

(** Calendar date of a day number (proleptic Gregorian calendar), as
    year, month 1..12, day of month. *)
Definition civil_from_days (z0 : Z) : Z * Z * Z :=
  let z := z0 + 719468 in
  let era := z / 146097 in
  let doe := z - era * 146097 in
  let yoe := (doe - doe / 1460 + doe / 36524 - doe / 146096) / 365 in
  let y := yoe + era * 400 in
  let doy := doe - (365 * yoe + yoe / 4 - yoe / 100) in
  let mp := (5 * doy + 2) / 153 in
  let d := doy - (153 * mp + 2) / 5 + 1 in
  let m := if mp <? 10 then mp + 3 else mp - 9 in
  (if m <=? 2 then y + 1 else y, m, d).

(** Day number of a calendar date; the day of month may overflow. *)
Definition days_from_civil (y0 m d : Z) : Z :=
  let y := if m <=? 2 then y0 - 1 else y0 in
  let era := y / 400 in
  let yoe := y - era * 400 in
  let mp := if m >? 2 then m - 3 else m + 9 in
  let doy := (153 * mp + 2) / 5 + d - 1 in
  let doe := yoe * 365 + yoe / 4 - yoe / 100 + doy in
  era * 146097 + doe - 719468.

Definition getFullYear (t : Date) : Z :=
  let '(y, _, _) := civil_from_days (Day t) in y.

(** [getMonth()] is zero-based. *)
Definition getMonth (t : Date) : Z :=
  let '(_, m, _) := civil_from_days (Day t) in m - 1.

Definition getDate (t : Date) : Z :=
  let '(_, _, d) := civil_from_days (Day t) in d.

(** [getDay()]: 0 is Sunday; day 0 of the epoch was a Thursday. *)
Definition getDay (t : Date) : Z := (Day t + 4) mod 7.

Definition getHours (t : Date) : Z := (t / msPerHour) mod 24.
Definition getMinutes (t : Date) : Z := (t / msPerMinute) mod 60.
Definition getTime (t : Date) : Z := t.

(** [MakeDay(year, month, date)] for a month in 0..11. *)
Definition MakeDay (y m dt : Z) : Z := days_from_civil y (m + 1) 1 + dt - 1.

(** [d.setDate(dt)] keeps the time within the day. *)
Definition setDate (t : Date) (dt : Z) : Date :=
  MakeDay (getFullYear t) (getMonth t) dt * msPerDay + TimeWithinDay t.

(** [d.setHours(h, m, s, ms)] keeps the day. *)
Definition setHours (t : Date) (h m s ms : Z) : Date :=
  Day t * msPerDay + (h * msPerHour + m * msPerMinute + s * 1000 + ms).

(** A local date and time of day, for writing timestamps down. *)
Definition mkDate (y m d hh mm : Z) : Date :=
  days_from_civil y m d * msPerDay + hh * msPerHour + mm * msPerMinute.

End JS.

(** ** market-hours.ts *)

Record MarketHoursConfig := {
  openTime : string;
  closeTime : string;
  openDays : list Z;
  holidays : option (list string);
  graceAfterOpen : option Z;
  graceBeforeClose : option Z
}.

Record MarketStatus := {
  isOpen : bool;
  currentTime : JS.Date;
  closedReason : option string;
  nextOpenTime : option JS.Date;
  nextCloseTime : option JS.Date
}.

(** [x ?? d] *)
Definition nullish {A} (x : option A) (d : A) : A :=
  match x with Some v => v | None => d end.

Infix "??" := nullish (at level 45, left associativity).

(** [const [h, m] = s.split(":").map(Number)] *)
Definition parseTime (s : string) : option (Z * Z) :=
  match map JS.Number (JS.split ":" s) with
  | Some h :: Some m :: _ => Some (h, m)
  | _ => None
  end.

Definition getDayName (day : Z) : string :=
  nth (Z.to_nat day)
      ["Sunday"; "Monday"; "Tuesday"; "Wednesday"; "Thursday"; "Friday";
       "Saturday"] "undefined".

Definition formatDate (date : JS.Date) : string :=
  let year := JS.getFullYear date in
  let month := JS.padStart 2 "0" (JS.String_of_number (JS.getMonth date + 1)) in
  let day := JS.padStart 2 "0" (JS.String_of_number (JS.getDate date)) in
  JS.String_of_number year ++ "-" ++ month ++ "-" ++ day.

(** [config.holidays?.includes(s)]: a missing list is falsy. *)
Definition isHoliday (config : MarketHoursConfig) (s : string) : bool :=
  match holidays config with
  | Some hs => JS.includesS hs s
  | None => false
  end.

Definition nextDay (d : JS.Date) : JS.Date := JS.setDate d (JS.getDate d + 1).

(** [while (!config.openDays.includes(next.getDay())) next.setDate(next.getDate() + 1)] *)
Fixpoint skipClosedDays (fuel : nat) (config : MarketHoursConfig)
    (next : JS.Date) : option JS.Date :=
  match fuel with
  | O => None
  | S f =>
      if negb (JS.includesZ (openDays config) (JS.getDay next))
      then skipClosedDays f config (nextDay next)
      else Some next
  end.

(** The holiday loop of [getNextOpenTime]; the inner loop runs on [fuel0]. *)
Fixpoint skipHolidays (fuel0 fuel : nat) (config : MarketHoursConfig)
    (next : JS.Date) : option JS.Date :=
  match fuel with
  | O => None
  | S f =>
      if isHoliday config (formatDate next)
      then
        match skipClosedDays fuel0 config (nextDay next) with
        | Some next' => skipHolidays fuel0 f config next'
        | None => None
        end
      else Some next
  end.

Definition getNextOpenTime (fuel : nat) (config : MarketHoursConfig)
    (from : JS.Date) : option JS.Date :=
  match parseTime (openTime config) with
  | None => None
  | Some (openHour, openMin) =>
      (* Start checking from tomorrow *)
      let next := nextDay from in
      let next := JS.setHours next openHour openMin 0 0 in
      match skipClosedDays fuel config next with
      | None => None
      | Some next => skipHolidays fuel fuel config next
      end
  end.

Definition getNextCloseTime (config : MarketHoursConfig) (from : JS.Date)
    : option JS.Date :=
  match parseTime (closeTime config) with
  | None => None
  | Some (closeHour, closeMin) => Some (JS.setHours from closeHour closeMin 0 0)
  end.

Definition closedStatus (fuel : nat) (config : MarketHoursConfig)
    (now : JS.Date) (reason : string) : option MarketStatus :=
  match getNextOpenTime fuel config now with
  | None => None
  | Some next =>
      Some {| isOpen := false; currentTime := now;
              closedReason := Some reason;
              nextOpenTime := Some next; nextCloseTime := None |}
  end.

Definition isMarketOpen (fuel : nat) (config : MarketHoursConfig)
    (now : JS.Date) : option MarketStatus :=
  let dayOfWeek := JS.getDay now in
  if negb (JS.includesZ (openDays config) dayOfWeek) then
    closedStatus fuel config now ("Market closed on " ++ getDayName dayOfWeek)
  else
  let dateStr := formatDate now in
  if isHoliday config dateStr then
    closedStatus fuel config now
      ("Market closed for holiday (" ++ dateStr ++ ")")
  else
  let currentMinutes := JS.getHours now * 60 + JS.getMinutes now in
  match parseTime (openTime config), parseTime (closeTime config) with
  | Some (openHour, openMin), Some (closeHour, closeMin) =>
      let openMinutes := openHour * 60 + openMin in
      let closeMinutes := closeHour * 60 + closeMin in
      let graceAfter := graceAfterOpen config ?? 0 in
      let graceBefore := graceBeforeClose config ?? 0 in
      let effectiveOpenMinutes := openMinutes + graceAfter in
      let effectiveCloseMinutes := closeMinutes - graceBefore in
      if currentMinutes <? effectiveOpenMinutes then
        closedStatus fuel config now
          ("Before market open (opens at " ++ openTime config ++ ")")
      else if currentMinutes >=? effectiveCloseMinutes then
        closedStatus fuel config now
          ("After market close (closed at " ++ closeTime config ++ ")")
      else
        match getNextCloseTime config now with
        | None => None
        | Some close =>
            Some {| isOpen := true; currentTime := now;
                    closedReason := None;
                    nextOpenTime := None; nextCloseTime := Some close |}
        end
  | _, _ => None
  end.

Definition getUSMarketHoursConfig : MarketHoursConfig := {|
  openTime := "09:30";
  closeTime := "16:00";
  openDays := [1; 2; 3; 4; 5];
  holidays := Some
    [ "2025-01-01"; "2025-01-20"; "2025-02-17"; "2025-04-18"; "2025-05-26";
      "2025-07-04"; "2025-09-01"; "2025-11-27"; "2025-12-25" ];
  graceAfterOpen := Some 15;
  graceBeforeClose := Some 15
|}.

(** *** Well-formed configurations (specification side) *)

Definition validTime (s : string) : bool :=
  match parseTime s with
  | Some (h, m) => (0 <=? h) && (h <? 24) && (0 <=? m) && (m <? 60)
  | None => false
  end.

Definition minutesOf (s : string) : Z :=
  match parseTime s with
  | Some (h, m) => h * 60 + m
  | None => 0
  end.

Definition effectiveOpen (config : MarketHoursConfig) : Z :=
  minutesOf (openTime config) + (graceAfterOpen config ?? 0).

Definition effectiveClose (config : MarketHoursConfig) : Z :=
  minutesOf (closeTime config) - (graceBeforeClose config ?? 0).

Definition minuteOfDay (t : JS.Date) : Z :=
  JS.getHours t * 60 + JS.getMinutes t.

(** The calendar of a configuration is usable when its times are [HH:MM]
    24-hour strings and some weekday 0..6 is an open day. *)
Definition calendarOk (config : MarketHoursConfig) : bool :=
  validTime (openTime config) && validTime (closeTime config)
  && existsb (fun d => (0 <=? d) && (d <=? 6)) (openDays config).

(** A configuration is well formed when its calendar is usable and the
    effective trading window (open plus grace up to close minus grace) is
    not empty. *)
Definition wellFormed (config : MarketHoursConfig) : bool :=
  calendarOk config && (effectiveOpen config <? effectiveClose config).

(** The day of a timestamp is one of the open weekdays. *)
Definition openDay (config : MarketHoursConfig) (t : JS.Date) : bool :=
  JS.includesZ (openDays config) (JS.getDay t).

(** Fuel that suffices for the loops of [getNextOpenTime]. *)
Definition enoughFuel (config : MarketHoursConfig) : nat :=
  8 + List.length (holidays config ?? []).

(** ** types.ts *)

Record ScheduleConfig := {
  intervalMinutes : Z;
  respectMarketHours : bool;
  marketHours : option MarketHoursConfig;
  timezone : option string;
  runOnStart : option bool;
  maxConsecutiveErrors : option Z
}.

Record TaskExecutionResult := {
  taskId : string;
  taskName : string;
  startTime : JS.Date;
  endTime : JS.Date;
  durationMs : Z;
  success : bool;
  error : option string
}.

Record SchedulerState := {
  isRunning : bool;
  lastRunTime : option JS.Date;
  nextRunTime : option JS.Date;
  totalRuns : Z;
  consecutiveErrors : Z;
  history : list TaskExecutionResult
}.

Inductive SchedulerEventType :=
| ev_start | ev_stop | ev_task_start | ev_task_complete | ev_task_error
| ev_market_closed | ev_error.

(** The payloads that the scheduler attaches to its events. *)
Inductive EventData :=
| NoData
| TaskData (taskId : string) (taskName : option string)
| ResultData (result : TaskExecutionResult)
| StatusData (status : MarketStatus)
| ReasonData (reason : string).

Record SchedulerEvent := {
  type : SchedulerEventType;
  timestamp : JS.Date;
  data : EventData
}.

(** A subscriber: an identity (the function reference) and whether the
    callback throws on an event. *)
Record SchedulerEventHandler := {
  hid : nat;
  hthrows : SchedulerEvent -> bool
}.

(** A value that a task body throws, with JavaScript's [String(v)]. *)
Inductive JSValue :=
| VError (message : string)
| VString (s : string)
| VNumber (n : Z)
| VUndefined
| VNull.

Definition String_of_value (v : JSValue) : string :=
  match v with
  | VError m => if String.eqb m "" then "Error" else "Error: " ++ m
  | VString s => s
  | VNumber n => JS.String_of_number n
  | VUndefined => "undefined"
  | VNull => "null"
  end.

(** How the promise of a task body settles. *)
Inductive Settled :=
| Resolved
| Rejected (reason : JSValue).

(** [truthy b] for an optional boolean field. *)
Definition truthy (b : option bool) : bool := b ?? false.

(** *** The monad of the methods: state, exceptions and divergence *)

Inductive Completion (A : Type) :=
| Normal (a : A)
| Throw (v : JSValue)
| Diverge.

Arguments Normal {A} a.
Arguments Throw {A} v.
Arguments Diverge {A}.

Definition ST (S A : Type) : Type := S -> Completion A * S.

Definition ret {S A} (a : A) : ST S A := fun s => (Normal a, s).

Definition bind {S A B} (c : ST S A) (k : A -> ST S B) : ST S B :=
  fun s =>
    match c s with
    | (Normal a, s') => k a s'
    | (Throw v, s') => (Throw v, s')
    | (Diverge, s') => (Diverge, s')
    end.

(** [try { c } catch (error) { h error }] *)
Definition try_catch {S A} (c : ST S A) (h : JSValue -> ST S A) : ST S A :=
  fun s =>
    match c s with
    | (Throw v, s') => h v s'
    | r => r
    end.

Declare Scope st_scope.
Delimit Scope st_scope with st.

Notation "x <- c1 ;; c2" := (bind c1 (fun x => c2))
  (at level 61, c1 at next level, right associativity) : st_scope.
Notation "c1 ;; c2" := (bind c1 (fun _ => c2))
  (at level 61, right associativity) : st_scope.

Local Open Scope st_scope.

Definition get {S} : ST S S := fun s => (Normal s, s).

Definition modify {S} (f : S -> S) : ST S unit := fun s => (Normal tt, f s).

(** A computation that never returns. *)
Definition diverge {S A} : ST S A := fun s => (Diverge, s).

Definition liftOption {S A} (o : option A) : ST S A :=
  match o with
  | Some a => ret a
  | None => diverge
  end.

Section SchedulerDefinitions.

(** The part of the world that task bodies act on. *)
Context {Env : Type}.

Record World := {
  now : JS.Date;
  env : Env
}.

Record ScheduledTask := {
  id : string;
  name : string;
  execute : World -> Settled * World;
  enabled : bool;
  priority : option Z;
  requiresMarketOpen : option bool
}.

(** ** scheduler.ts *)

(** The fields of a [Scheduler] object. [tasks] is the [Map] in insertion
    order; [intervalId] is the handle of the repeating timer. *)
Record Scheduler := {
  config : ScheduleConfig;
  tasks : list (string * ScheduledTask);
  state : SchedulerState;
  intervalId : option nat;
  eventHandlers : list SchedulerEventHandler
}.

(** One call of [emit]: the event, and for every handler called whether it
    threw (the exception is caught inside [emit]). *)
Record Emission := {
  event : SchedulerEvent;
  deliveries : list (nat * bool)
}.

(** The scheduler together with its host: the world, the interval timers
    that are armed, the next timer handle, and the log of emissions. *)
Record Sys := {
  sched : Scheduler;
  world : World;
  timers : list nat;
  nextTimer : nat;
  emitted : list Emission
}.

Definition M (A : Type) : Type := ST Sys A.

(** *** Field updates *)

Definition set_sched (f : Scheduler -> Scheduler) (s : Sys) : Sys :=
  {| sched := f (sched s); world := world s; timers := timers s;
     nextTimer := nextTimer s; emitted := emitted s |}.

Definition set_world (w : World) (s : Sys) : Sys :=
  {| sched := sched s; world := w; timers := timers s;
     nextTimer := nextTimer s; emitted := emitted s |}.

Definition set_state (f : SchedulerState -> SchedulerState) (x : Scheduler)
    : Scheduler :=
  {| config := config x; tasks := tasks x; state := f (state x);
     intervalId := intervalId x; eventHandlers := eventHandlers x |}.

Definition set_tasks
    (f : list (string * ScheduledTask) -> list (string * ScheduledTask))
    (x : Scheduler) : Scheduler :=
  {| config := config x; tasks := f (tasks x); state := state x;
     intervalId := intervalId x; eventHandlers := eventHandlers x |}.

Definition set_intervalId (i : option nat) (x : Scheduler) : Scheduler :=
  {| config := config x; tasks := tasks x; state := state x;
     intervalId := i; eventHandlers := eventHandlers x |}.

Definition set_eventHandlers
    (f : list SchedulerEventHandler -> list SchedulerEventHandler)
    (x : Scheduler) : Scheduler :=
  {| config := config x; tasks := tasks x; state := state x;
     intervalId := intervalId x; eventHandlers := f (eventHandlers x) |}.

Definition set_isRunning (b : bool) (st : SchedulerState) : SchedulerState :=
  {| isRunning := b; lastRunTime := lastRunTime st;
     nextRunTime := nextRunTime st; totalRuns := totalRuns st;
     consecutiveErrors := consecutiveErrors st; history := history st |}.

Definition set_runTimes (last next : JS.Date) (st : SchedulerState)
    : SchedulerState :=
  {| isRunning := isRunning st; lastRunTime := Some last;
     nextRunTime := Some next; totalRuns := totalRuns st;
     consecutiveErrors := consecutiveErrors st; history := history st |}.

Definition set_totalRuns (n : Z) (st : SchedulerState) : SchedulerState :=
  {| isRunning := isRunning st; lastRunTime := lastRunTime st;
     nextRunTime := nextRunTime st; totalRuns := n;
     consecutiveErrors := consecutiveErrors st; history := history st |}.

Definition set_consecutiveErrors (n : Z) (st : SchedulerState)
    : SchedulerState :=
  {| isRunning := isRunning st; lastRunTime := lastRunTime st;
     nextRunTime := nextRunTime st; totalRuns := totalRuns st;
     consecutiveErrors := n; history := history st |}.

Definition set_history (h : list TaskExecutionResult) (st : SchedulerState)
    : SchedulerState :=
  {| isRunning := isRunning st; lastRunTime := lastRunTime st;
     nextRunTime := nextRunTime st; totalRuns := totalRuns st;
     consecutiveErrors := consecutiveErrors st; history := h |}.

Definition set_enabled (b : bool) (t : ScheduledTask) : ScheduledTask :=
  {| id := id t; name := name t; execute := execute t; enabled := b;
     priority := priority t; requiresMarketOpen := requiresMarketOpen t |}.

Definition modifyState (f : SchedulerState -> SchedulerState) : M unit :=
  modify (set_sched (set_state f)).

(** *** Host operations *)

(** [new Date()] reads the clock. *)
Definition newDate : M JS.Date := fun s => (Normal (now (world s)), s).

(** [setInterval(cb, ms)] arms a repeating timer and returns its handle. *)
Definition setInterval : M nat :=
  fun s =>
    (Normal (nextTimer s),
     {| sched := sched s; world := world s;
        timers := timers s ++ [nextTimer s];
        nextTimer := S (nextTimer s); emitted := emitted s |}).

Definition clearInterval (i : nat) : M unit :=
  modify (fun s =>
    {| sched := sched s; world := world s;
       timers := filter (fun j => negb (Nat.eqb j i)) (timers s);
       nextTimer := nextTimer s; emitted := emitted s |}).

(** [await task.execute()]: the body acts on the world; a rejected promise
    is thrown at the [await]. *)
Definition awaitExecute (task : ScheduledTask) : M unit :=
  fun s =>
    let '(r, w) := execute task (world s) in
    (match r with Resolved => Normal tt | Rejected v => Throw v end,
     set_world w s).

(** *** The task [Map] *)

Fixpoint map_set (k : string) (v : ScheduledTask)
    (m : list (string * ScheduledTask)) : list (string * ScheduledTask) :=
  match m with
  | [] => [(k, v)]
  | (k', v') :: rest =>
      if String.eqb k' k then (k, v) :: rest else (k', v') :: map_set k v rest
  end.

Definition map_delete (k : string) (m : list (string * ScheduledTask))
    : list (string * ScheduledTask) :=
  filter (fun kv => negb (String.eqb (fst kv) k)) m.

Fixpoint map_get (k : string) (m : list (string * ScheduledTask))
    : option ScheduledTask :=
  match m with
  | [] => None
  | (k', v') :: rest => if String.eqb k' k then Some v' else map_get k rest
  end.

(** [Array.from(m.values())] *)
Definition map_values (m : list (string * ScheduledTask))
    : list ScheduledTask :=
  map snd m.

(** An assignment to a field of the object stored under [k]. *)
Fixpoint map_mutate (k : string) (f : ScheduledTask -> ScheduledTask)
    (m : list (string * ScheduledTask)) : list (string * ScheduledTask) :=
  match m with
  | [] => []
  | (k', v') :: rest =>
      if String.eqb k' k then (k', f v') :: rest
      else (k', v') :: map_mutate k f rest
  end.

(** *** Array.prototype.sort: a stable sort by the comparator's sign *)

Fixpoint sort_insert (cmp : ScheduledTask -> ScheduledTask -> Z)
    (x : ScheduledTask) (l : list ScheduledTask) : list ScheduledTask :=
  match l with
  | [] => [x]
  | y :: rest =>
      if cmp x y <=? 0 then x :: y :: rest else y :: sort_insert cmp x rest
  end.

(** Elements are inserted from the right, and an element moves only past
    those that the comparator puts strictly before it: equal elements keep
    their order. *)
Definition sort (cmp : ScheduledTask -> ScheduledTask -> Z)
    (l : list ScheduledTask) : list ScheduledTask :=
  fold_right (sort_insert cmp) [] l.

(** *** The methods of [Scheduler] *)

(** [new Scheduler(config)] on a fresh host with world [w]. *)
Definition newScheduler (cfg : ScheduleConfig) : Scheduler :=
  {| config := cfg;
     tasks := [];
     state := {| isRunning := false; lastRunTime := None;
                 nextRunTime := None; totalRuns := 0;
                 consecutiveErrors := 0; history := [] |};
     intervalId := None;
     eventHandlers := [] |}.

Definition initSys (cfg : ScheduleConfig) (w : World) : Sys :=
  {| sched := newScheduler cfg; world := w; timers := []; nextTimer := O;
     emitted := [] |}.

(** The loop of [emit]: every handler is called inside [try]/[catch]. *)
Fixpoint callHandlers (hs : list SchedulerEventHandler) (e : SchedulerEvent)
    : list (nat * bool) :=
  match hs with
  | [] => []
  | handler :: rest => (hid handler, hthrows handler e) :: callHandlers rest e
  end.

Definition emit (e : SchedulerEvent) : M unit :=
  modify (fun s =>
    {| sched := sched s; world := world s; timers := timers s;
       nextTimer := nextTimer s;
       emitted := emitted s ++
         [{| event := e;
             deliveries := callHandlers (eventHandlers (sched s)) e |}] |}).

Definition registerTask (task : ScheduledTask) : M unit :=
  modify (set_sched (set_tasks (map_set (id task) task))) ;;
  t <- newDate ;;
  emit {| type := ev_task_start; timestamp := t;
          data := TaskData (id task) None |}.

Definition unregisterTask (taskId : string) : M unit :=
  modify (set_sched (set_tasks (map_delete taskId))).

Definition stop : M unit :=
  s <- get ;;
  if negb (isRunning (state (sched s))) then ret tt
  else
    match intervalId (sched s) with
    | Some i =>
        clearInterval i ;;
        modify (set_sched (set_intervalId None))
    | None => ret tt
    end ;;
    modifyState (set_isRunning false) ;;
    t <- newDate ;;
    emit {| type := ev_stop; timestamp := t; data := NoData |}.

Definition executeTask (task : ScheduledTask) : M TaskExecutionResult :=
  startTime <- newDate ;;
  emit {| type := ev_task_start; timestamp := startTime;
          data := TaskData (id task) (Some (name task)) |} ;;
  try_catch
    (awaitExecute task ;;
     endTime <- newDate ;;
     let result :=
       {| taskId := id task; taskName := name task;
          startTime := startTime; endTime := endTime;
          durationMs := JS.getTime endTime - JS.getTime startTime;
          success := true; error := None |} in
     emit {| type := ev_task_complete; timestamp := endTime;
             data := ResultData result |} ;;
     ret result)
    (fun error =>
     endTime <- newDate ;;
     let result :=
       {| taskId := id task; taskName := name task;
          startTime := startTime; endTime := endTime;
          durationMs := JS.getTime endTime - JS.getTime startTime;
          success := false; error := Some (String_of_value error) |} in
     emit {| type := ev_task_error; timestamp := endTime;
             data := ResultData result |} ;;
     ret result).

(** The oracle as the scheduler calls it; it diverges when the loops of
    [getNextOpenTime] do. *)
Definition queryMarket (fuel : nat) (mh : MarketHoursConfig) (t : JS.Date)
    : M MarketStatus :=
  liftOption (isMarketOpen fuel mh t).

(** [enabledTasks]: the enabled tasks, by priority, highest first. *)
Definition enabledTasks (x : Scheduler) : list ScheduledTask :=
  sort (fun a b => (priority b ?? 0) - (priority a ?? 0))
       (filter (fun task => enabled task) (map_values (tasks x))).

(** The [for] loop of [runTasks], with its accumulators. *)
Fixpoint taskLoop (fuel : nat) (todo : list ScheduledTask)
    (results : list TaskExecutionResult) (hasError : bool)
    : M (list TaskExecutionResult * bool) :=
  match todo with
  | [] => ret (results, hasError)
  | task :: rest =>
      s <- get ;;
      skip <-
        match marketHours (config (sched s)) with
        | Some mh =>
            if truthy (requiresMarketOpen task)
               && respectMarketHours (config (sched s))
            then
              t <- newDate ;;
              marketStatus <- queryMarket fuel mh t ;;
              ret (negb (isOpen marketStatus))
            else ret false
        | None => ret false
        end ;;
      if (skip : bool) then taskLoop fuel rest results hasError
      else
        result <- executeTask task ;;
        taskLoop fuel rest (results ++ [result])
                 (if negb (success result) then true else hasError)
  end.

(** [arr.slice(-n)] *)
Definition slice_last {A} (n : nat) (l : list A) : list A :=
  skipn (List.length l - n) l.

(** The tail of [runTasks], from "Update state" on. *)
Definition updateState (results : list TaskExecutionResult)
    (hasError : bool) : M unit :=
  modifyState (fun st => set_totalRuns (totalRuns st + 1) st) ;;
  modifyState (fun st => set_history (history st ++ results) st) ;;
  modifyState (fun st =>
    if (100 <? List.length (history st))%nat
    then set_history (slice_last 100 (history st)) st else st) ;;
  modifyState (fun st =>
    if hasError then set_consecutiveErrors (consecutiveErrors st + 1) st
    else set_consecutiveErrors 0 st) ;;
  s <- get ;;
  let maxErrors := maxConsecutiveErrors (config (sched s)) ?? 10 in
  if consecutiveErrors (state (sched s)) >=? maxErrors then
    stop ;;
    t <- newDate ;;
    emit {| type := ev_error; timestamp := t;
            data := ReasonData "max_consecutive_errors" |}
  else ret tt.

(** The part of [runTasks] after the market-hours gate. *)
Definition runEnabledTasks (fuel : nat) : M unit :=
  s <- get ;;
  let todo := enabledTasks (sched s) in
  if (List.length todo =? 0)%nat then ret tt
  else
    r <- taskLoop fuel todo [] false ;;
    updateState (fst r) (snd r).

Definition runTasks (fuel : nat) : M unit :=
  now <- newDate ;;
  s <- get ;;
  let nextRun :=
    JS.getTime now + intervalMinutes (config (sched s)) * 60 * 1000 in
  modifyState (set_runTimes now nextRun) ;;
  match marketHours (config (sched s)) with
  | Some mh =>
      if respectMarketHours (config (sched s)) then
        marketStatus <- queryMarket fuel mh now ;;
        if negb (isOpen marketStatus) then
          emit {| type := ev_market_closed; timestamp := now;
                  data := StatusData marketStatus |}
        else runEnabledTasks fuel
      else runEnabledTasks fuel
  | None => runEnabledTasks fuel
  end.

(** [this.runTasks().catch(err => console.error(...))] *)
Definition runTasksCaught (fuel : nat) : M unit :=
  try_catch (runTasks fuel) (fun _ => ret tt).

(** [start()]. The source starts the first cycle before it calls
    [setInterval], but [runTasks] is an [async] function: it runs up to the
    [await] of its first task, and goes on to its state update and to
    [stop()] only after [start()] has returned. A cycle that ends before
    any [await] (market closed, no enabled task) touches neither the timer
    nor [isRunning]. So the timer is armed first, and the cycle is then run
    to completion. *)
Definition start (fuel : nat) : M unit :=
  s <- get ;;
  if isRunning (state (sched s)) then ret tt
  else
    modifyState (set_isRunning true) ;;
    t <- newDate ;;
    emit {| type := ev_start; timestamp := t; data := NoData |} ;;
    i <- setInterval ;;
    modify (set_sched (set_intervalId (Some i))) ;;
    if truthy (runOnStart (config (sched s))) then runTasksCaught fuel
    else ret tt.

Definition runNow (fuel : nat) : M unit := runTasks fuel.

Definition getState (s : Sys) : SchedulerState := state (sched s).

Definition getHistory (limit : option nat) (s : Sys)
    : list TaskExecutionResult :=
  match limit with
  | Some (S n) => slice_last (S n) (history (state (sched s)))
  | _ => history (state (sched s))
  end.

Definition clearHistory : M unit := modifyState (set_history []).

Definition on (handler : SchedulerEventHandler) : M unit :=
  modify (set_sched (set_eventHandlers (fun hs => hs ++ [handler]))).

(** [indexOf] and [splice]: the first occurrence is removed. *)
Fixpoint remove_first (i : nat) (hs : list SchedulerEventHandler)
    : list SchedulerEventHandler :=
  match hs with
  | [] => []
  | h :: rest => if Nat.eqb (hid h) i then rest else h :: remove_first i rest
  end.

Definition off (handler : SchedulerEventHandler) : M unit :=
  modify (set_sched (set_eventHandlers (remove_first (hid handler)))).

Definition getTasks (s : Sys) : list ScheduledTask :=
  map_values (tasks (sched s)).

Definition enableTask (taskId : string) : M unit :=
  modify (set_sched (set_tasks (map_mutate taskId (set_enabled true)))).

Definition disableTask (taskId : string) : M unit :=
  modify (set_sched (set_tasks (map_mutate taskId (set_enabled false)))).

(** ** orchestrator.ts *)

Record OrchestratorConfig := {
  schedule : ScheduleConfig;
  enablePositionMonitoring : bool;
  enableEntryScanning : bool;
  enableRollManagement : bool;
  dryRun : bool
}.

(** The keys that [setFeatureEnabled] accepts. *)
Inductive Feature :=
| EnablePositionMonitoring
| EnableEntryScanning
| EnableRollManagement.

(** The fields of a [TradingOrchestrator]; its scheduler lives in [osys]. *)
Record TradingOrchestrator := {
  oconfig : OrchestratorConfig;
  osys : Sys
}.

Definition OM (A : Type) : Type := ST TradingOrchestrator A.

(** A call on [this.scheduler]. *)
Definition onScheduler {A} (c : M A) : OM A :=
  fun o =>
    let '(r, s) := c (osys o) in (r, {| oconfig := oconfig o; osys := s |}).

Definition set_marketHours (mh : MarketHoursConfig) (c : ScheduleConfig)
    : ScheduleConfig :=
  {| intervalMinutes := intervalMinutes c;
     respectMarketHours := respectMarketHours c;
     marketHours := Some mh; timezone := timezone c;
     runOnStart := runOnStart c;
     maxConsecutiveErrors := maxConsecutiveErrors c |}.

(** [this.config[feature] = enabled] *)
Definition set_feature (feature : Feature) (b : bool)
    (c : OrchestratorConfig) : OrchestratorConfig :=
  {| schedule := schedule c;
     enablePositionMonitoring :=
       match feature with
       | EnablePositionMonitoring => b
       | _ => enablePositionMonitoring c
       end;
     enableEntryScanning :=
       match feature with
       | EnableEntryScanning => b
       | _ => enableEntryScanning c
       end;
     enableRollManagement :=
       match feature with
       | EnableRollManagement => b
       | _ => enableRollManagement c
       end;
     dryRun := dryRun c |}.

Definition get_feature (feature : Feature) (c : OrchestratorConfig) : bool :=
  match feature with
  | EnablePositionMonitoring => enablePositionMonitoring c
  | EnableEntryScanning => enableEntryScanning c
  | EnableRollManagement => enableRollManagement c
  end.

(** The three task bodies only write to the console, in dry-run mode and
    outside it. *)
Definition monitorPositions (dry : bool) (w : World) : Settled * World :=
  if dry then (Resolved, w) else (Resolved, w).

Definition scanForEntries (dry : bool) (w : World) : Settled * World :=
  if dry then (Resolved, w) else (Resolved, w).

Definition manageRolls (dry : bool) (w : World) : Settled * World :=
  if dry then (Resolved, w) else (Resolved, w).

Definition monitorTask (dry : bool) : ScheduledTask :=
  {| id := "position-monitor";
     name := "Monitor Positions for Exit/Roll";
     execute := monitorPositions dry;
     enabled := true;
     priority := Some 100;
     requiresMarketOpen := Some true |}.

Definition scanTask (dry : bool) : ScheduledTask :=
  {| id := "entry-scanner";
     name := "Scan for Entry Opportunities";
     execute := scanForEntries dry;
     enabled := true;
     priority := Some 50;
     requiresMarketOpen := Some true |}.

Definition rollTask (dry : bool) : ScheduledTask :=
  {| id := "roll-manager";
     name := "Check Positions for Rolling";
     execute := manageRolls dry;
     enabled := true;
     priority := Some 75;
     requiresMarketOpen := Some true |}.

Definition registerDefaultTasks : OM unit :=
  o <- get ;;
  (if enablePositionMonitoring (oconfig o)
   then onScheduler (registerTask (monitorTask (dryRun (oconfig o))))
   else ret tt) ;;
  (if enableEntryScanning (oconfig o)
   then onScheduler (registerTask (scanTask (dryRun (oconfig o))))
   else ret tt) ;;
  (if enableRollManagement (oconfig o)
   then onScheduler (registerTask (rollTask (dryRun (oconfig o))))
   else ret tt).

(** [new TradingOrchestrator(config)] on a fresh host with world [w]. The
    schedule object is shared with the scheduler, so the default market
    hours show in both. *)
Definition newTradingOrchestrator (cfg : OrchestratorConfig) (w : World)
    : TradingOrchestrator :=
  let sch :=
    match marketHours (schedule cfg) with
    | Some _ => schedule cfg
    | None => set_marketHours getUSMarketHoursConfig (schedule cfg)
    end in
  let cfg' :=
    {| schedule := sch;
       enablePositionMonitoring := enablePositionMonitoring cfg;
       enableEntryScanning := enableEntryScanning cfg;
       enableRollManagement := enableRollManagement cfg;
       dryRun := dryRun cfg |} in
  snd (registerDefaultTasks {| oconfig := cfg'; osys := initSys sch w |}).

Definition registerCustomTask (task : ScheduledTask) : OM unit :=
  onScheduler (registerTask task).

Definition taskMap (feature : Feature) : string :=
  match feature with
  | EnablePositionMonitoring => "position-monitor"
  | EnableEntryScanning => "entry-scanner"
  | EnableRollManagement => "roll-manager"
  end.

Definition setFeatureEnabled (feature : Feature) (enabled : bool) : OM unit :=
  modify (fun o =>
    {| oconfig := set_feature feature enabled (oconfig o);
       osys := osys o |}) ;;
  let taskId := taskMap feature in
  if enabled then onScheduler (enableTask taskId)
  else onScheduler (disableTask taskId).

Definition createDefaultOrchestrator (dry : bool) (w : World)
    : TradingOrchestrator :=
  newTradingOrchestrator
    {| schedule :=
         {| intervalMinutes := 15;
            respectMarketHours := true;
            marketHours := Some getUSMarketHoursConfig;
            timezone := Some "America/New_York";
            runOnStart := Some false;
            maxConsecutiveErrors := Some 5 |};
       enablePositionMonitoring := true;
       enableEntryScanning := true;
       enableRollManagement := true;
       dryRun := dry |} w.

(** ** Runs of the system *)

(** What may happen to a scheduler: the calls of its public methods, a
    firing of the repeating timer, and the world moving on in between. *)
Inductive Op :=
| OpRegisterTask (task : ScheduledTask)
| OpUnregisterTask (taskId : string)
| OpStart
| OpStop
| OpRunNow
| OpTick
| OpClearHistory
| OpOn (handler : SchedulerEventHandler)
| OpOff (handler : SchedulerEventHandler)
| OpEnableTask (taskId : string)
| OpDisableTask (taskId : string)
| OpWorld (w : World).

Definition perform (fuel : nat) (op : Op) : M unit :=
  match op with
  | OpRegisterTask task => registerTask task
  | OpUnregisterTask taskId => unregisterTask taskId
  | OpStart => start fuel
  | OpStop => stop
  | OpRunNow => runNow fuel
  | OpTick => runTasksCaught fuel
  | OpClearHistory => clearHistory
  | OpOn handler => on handler
  | OpOff handler => off handler
  | OpEnableTask taskId => enableTask taskId
  | OpDisableTask taskId => disableTask taskId
  | OpWorld w => modify (set_world w)
  end.

(** The timer fires only while an interval is armed. *)
Definition opEnabled (op : Op) (s : Sys) : bool :=
  match op with
  | OpTick => negb (List.length (timers s) =? 0)%nat
  | _ => true
  end.

Inductive step (fuel : nat) : Sys -> Op -> Sys -> Prop :=
| step_op s op s' :
    opEnabled op s = true ->
    perform fuel op s = (Normal tt, s') ->
    step fuel s op s'.

Inductive steps (fuel : nat) : Sys -> list Op -> Sys -> Prop :=
| steps_nil s : steps fuel s [] s
| steps_cons s op s1 ops s2 :
    step fuel s op s1 -> steps fuel s1 ops s2 ->
    steps fuel s (op :: ops) s2.

(** The states that a scheduler built by [new Scheduler(cfg)] can be in. *)
Definition reachable (fuel : nat) (s : Sys) : Prop :=
  exists cfg w ops, steps fuel (initSys cfg w) ops s.

(** The operations of an orchestrator: those of its scheduler (through
    [getScheduler()], [registerCustomTask], [start], [stop], [runNow]) and
    the feature toggle. *)
Inductive OOp :=
| OSched (op : Op)
| OSetFeature (feature : Feature) (enabled : bool).

Definition operform (fuel : nat) (op : OOp) : OM unit :=
  match op with
  | OSched op => onScheduler (perform fuel op)
  | OSetFeature feature enabled => setFeatureEnabled feature enabled
  end.

Inductive osteps (fuel : nat)
    : TradingOrchestrator -> list OOp -> TradingOrchestrator -> Prop :=
| osteps_nil o : osteps fuel o [] o
| osteps_cons o op o1 ops o2 :
    match op with OSched op' => opEnabled op' (osys o) | _ => true end = true ->
    operform fuel op o = (Normal tt, o1) ->
    osteps fuel o1 ops o2 ->
    osteps fuel o (op :: ops) o2.

Definition oreachable (fuel : nat) (o : TradingOrchestrator) : Prop :=
  exists cfg w ops, osteps fuel (newTradingOrchestrator cfg w) ops o.

(** *** Vocabulary of the statements *)

(** [Subseq l1 l2]: [l1] is [l2] with some elements left out. *)
Inductive Subseq {A} : list A -> list A -> Prop :=
| Subseq_nil : Subseq [] []
| Subseq_skip x l1 l2 : Subseq l1 l2 -> Subseq l1 (x :: l2)
| Subseq_take x l1 l2 : Subseq l1 l2 -> Subseq (x :: l1) (x :: l2).

Definition prio (t : ScheduledTask) : Z := priority t ?? 0.

(** A result was produced by running a task. *)
Definition resultOf (r : TaskExecutionResult) (t : ScheduledTask) : Prop :=
  taskId r = id t /\ taskName r = name t.

(** The task that an event is about, if any. *)
Definition eventTask (e : SchedulerEvent) : option string :=
  match data e with
  | TaskData i _ => Some i
  | ResultData r => Some (taskId r)
  | _ => None
  end.

Definition isErrorEvent (e : Emission) : bool :=
  match type (event e) with ev_error => true | _ => false end.

(** The emission that [emit e] adds in state [s]. *)
Definition emission (s : Sys) (e : SchedulerEvent) : Emission :=
  {| event := e; deliveries := callHandlers (eventHandlers (sched s)) e |}.

(** The result that [executeTask] builds for a task started at [t0] whose
    promise settled as [out] at [t1]. *)
Definition resultFor (task : ScheduledTask) (t0 t1 : JS.Date) (out : Settled)
    : TaskExecutionResult :=
  {| taskId := id task; taskName := name task;
     startTime := t0; endTime := t1;
     durationMs := JS.getTime t1 - JS.getTime t0;
     success := match out with Resolved => true | Rejected _ => false end;
     error := match out with
              | Resolved => None
              | Rejected v => Some (String_of_value v)
              end |}.

(** An emission made while running one of the tasks [ts]. *)
Definition taskEmission (ts : list ScheduledTask) (e : Emission) : Prop :=
  (type (event e) = ev_task_start \/ type (event e) = ev_task_complete \/
   type (event e) = ev_task_error) /\
  exists t, In t ts /\ eventTask (event e) = Some (id t).

(** The scheduler state after the state update of a cycle. *)
Definition updatedState (results : list TaskExecutionResult)
    (hasError : bool) (st : SchedulerState) : SchedulerState :=
  {| isRunning := isRunning st;
     lastRunTime := lastRunTime st;
     nextRunTime := nextRunTime st;
     totalRuns := totalRuns st + 1;
     consecutiveErrors :=
       if hasError then consecutiveErrors st + 1 else 0;
     history :=
       if (100 <? List.length (history st ++ results))%nat
       then slice_last 100 (history st ++ results)
       else history st ++ results |}.

(** The system after [stop()]. *)
Definition afterStop (s : Sys) : Sys :=
  if isRunning (state (sched s)) then
    {| sched := set_state (set_isRunning false)
                  (set_intervalId None (sched s));
       world := world s;
       timers := match intervalId (sched s) with
                 | Some i => filter (fun j => negb (Nat.eqb j i)) (timers s)
                 | None => timers s
                 end;
       nextTimer := nextTimer s;
       emitted := emitted s ++
         [emission s {| type := ev_stop; timestamp := now (world s);
                        data := NoData |}] |}
  else s.

Definition addEmission (e : SchedulerEvent) (s : Sys) : Sys :=
  {| sched := sched s; world := world s; timers := timers s;
     nextTimer := nextTimer s; emitted := emitted s ++ [emission s e] |}.

(** The system after the state update of a cycle with these results. *)
Definition afterUpdate (results : list TaskExecutionResult)
    (hasError : bool) (s : Sys) : Sys :=
  let s1 := set_sched (set_state (updatedState results hasError)) s in
  if consecutiveErrors (state (sched s1))
       >=? (maxConsecutiveErrors (config (sched s)) ?? 10)
  then
    addEmission {| type := ev_error; timestamp := now (world s);
                   data := ReasonData "max_consecutive_errors" |}
                (afterStop s1)
  else s1.

(** The state in which [runTasks] leaves the run times. *)
Definition cycleStart (s : Sys) : Sys :=
  set_sched (set_state (set_runTimes (now (world s))
    (JS.getTime (now (world s))
     + intervalMinutes (config (sched s)) * 60 * 1000))) s.

(** Whether the cycle-level gate applies, and to which configuration. *)
Definition gate (s : Sys) : option MarketHoursConfig :=
  match marketHours (config (sched s)) with
  | Some mh => if respectMarketHours (config (sched s)) then Some mh else None
  | None => None
  end.

(** The three ways in which a cycle completes. *)
Inductive CycleRun (fuel : nat) (s : Sys) : Sys -> Prop :=
| cycle_closed mh st :
    gate s = Some mh ->
    isMarketOpen fuel mh (now (world s)) = Some st ->
    isOpen st = false ->
    CycleRun fuel s
      {| sched := sched (cycleStart s); world := world s;
         timers := timers s; nextTimer := nextTimer s;
         emitted := emitted s ++
           [emission s {| type := ev_market_closed;
                          timestamp := now (world s);
                          data := StatusData st |}] |}
| cycle_no_tasks :
    enabledTasks (sched s) = [] ->
    CycleRun fuel s (cycleStart s)
| cycle_updated results hasError s1 s' :
    enabledTasks (sched s) <> [] ->
    taskLoop fuel (enabledTasks (sched s)) [] false (cycleStart s)
      = (Normal (results, hasError), s1) ->
    updateState results hasError s1 = (Normal tt, s') ->
    CycleRun fuel s s'.

(** The oracle returns on every query that a cycle of this configuration
    makes: the gate is off, or the calendar is usable and the fuel enough. *)
Definition oracleTotal (fuel : nat) (c : ScheduleConfig) : Prop :=
  match marketHours c with
  | Some mh =>
      respectMarketHours c = true ->
      calendarOk mh = true /\ (enoughFuel mh <= fuel)%nat
  | None => True
  end.

(** An operation left the two counters alone. *)
Definition countersUnchanged (s s' : Sys) : Prop :=
  totalRuns (state (sched s')) = totalRuns (state (sched s)) /\
  consecutiveErrors (state (sched s')) = consecutiveErrors (state (sched s)).

(** An operation was a cycle that reached its state update with these
    results. *)
Definition countedCycle (fuel : nat) (s : Sys) (op : Op) (s' : Sys)
    (results : list TaskExecutionResult) : Prop :=
  exists s0 hasError s1,
    (op = OpRunNow \/ op = OpTick \/ op = OpStart) /\
    tasks (sched s0) = tasks (sched s) /\
    taskLoop fuel (enabledTasks (sched s0)) [] false s0
      = (Normal (results, hasError), s1) /\
    updateState results hasError s1 = (Normal tt, s').

(** Runs a list of operations, for building example states. *)
Fixpoint runOps (fuel : nat) (ops : list Op) (s : Sys) : Sys :=
  match ops with
  | [] => s
  | op :: rest => runOps fuel rest (snd (perform fuel op s))
  end.

(** Every operation of the list is enabled and completes. *)
Fixpoint opsComplete (fuel : nat) (ops : list Op) (s : Sys) : bool :=
  match ops with
  | [] => true
  | op :: rest =>
      opEnabled op s
      && match fst (perform fuel op s) with Normal _ => true | _ => false end
      && opsComplete fuel rest (snd (perform fuel op s))
  end.

(** The invariant of the reachable states. *)
Record Inv (s : Sys) : Prop := {
  inv_stopped :
    isRunning (state (sched s)) = false -> intervalId (sched s) = None;
  inv_timers :
    timers s = match intervalId (sched s) with Some i => [i] | None => [] end;
  inv_history : (List.length (history (state (sched s))) <= 100)%nat;
  inv_keys : NoDup (map fst (tasks (sched s)));
  inv_ids : Forall (fun kv => fst kv = id (snd kv)) (tasks (sched s))
}.

End SchedulerDefinitions.

(** ** Example systems *)

Definition exWorld : @World unit :=
  {| now := JS.mkDate 2025 1 2 10 0; env := tt |}.

Definition exHolidayWorld : @World unit :=
  {| now := JS.mkDate 2025 1 1 10 0; env := tt |}.

Definition exConfig (maxErrors : option Z) : ScheduleConfig :=
  {| intervalMinutes := 15;
     respectMarketHours := true;
     marketHours := Some getUSMarketHoursConfig;
     timezone := None;
     runOnStart := None;
     maxConsecutiveErrors := maxErrors |}.

Definition exTask (i : string) (p : option Z) (out : Settled)
    : @ScheduledTask unit :=
  {| id := i; name := i; execute := fun w => (out, w); enabled := true;
     priority := p; requiresMarketOpen := None |}.

Definition exFailing : @ScheduledTask unit :=
  exTask "failing" None (Rejected (VError "boom")).

Definition exHandler : SchedulerEventHandler :=
  {| hid := 1; hthrows := fun _ => true |}.

(** A started scheduler with one subscriber and one task that always
    fails, and a threshold of one failing cycle. *)
Definition exArmed : @Sys unit :=
  runOps 17 [OpOn exHandler; OpRegisterTask exFailing; OpStart]
    (initSys (exConfig (Some 1)) exWorld).

(** A scheduler queried on a holiday. *)
Definition exClosed : @Sys unit :=
  runOps 17 [OpOn exHandler; OpRegisterTask exFailing]
    (initSys (exConfig None) exHolidayWorld).

(** Three tasks registered as B (50), A (100), C (100). *)
Definition exThree : @Sys unit :=
  runOps 17
    [OpRegisterTask (exTask "B" (Some 50) Resolved);
     OpRegisterTask (exTask "A" (Some 100) Resolved);
     OpRegisterTask (exTask "C" (Some 100) Resolved)]
    (initSys (exConfig None) exWorld).

Definition exOrchestrator : @TradingOrchestrator unit :=
  createDefaultOrchestrator true exWorld.

(** ** More of market-hours.ts *)

(** A JavaScript number that may be [Infinity]. *)
Inductive JSNumber :=
| Finite (n : Z)
| Infinity.

(** [Math.floor(diff / (1000 * 60))] on integers. *)
Definition floorMinutes (diff : Z) : Z := diff / (1000 * 60).

Definition minutesUntilMarketOpen (fuel : nat) (config : MarketHoursConfig)
    (currentTime : JS.Date) : option JSNumber :=
  match isMarketOpen fuel config currentTime with
  | None => None
  | Some status =>
      if isOpen status then Some (Finite 0)
      else
        match nextOpenTime status with
        | None => Some Infinity
        | Some next =>
            let diff := JS.getTime next - JS.getTime currentTime in
            Some (Finite (floorMinutes diff))
        end
  end.

Definition minutesUntilMarketClose (fuel : nat) (config : MarketHoursConfig)
    (currentTime : JS.Date) : option JSNumber :=
  match isMarketOpen fuel config currentTime with
  | None => None
  | Some status =>
      if negb (isOpen status) then Some (Finite 0)
      else
        match nextCloseTime status with
        | None => Some (Finite 0)
        | Some close =>
            let diff := JS.getTime close - JS.getTime currentTime in
            Some (Finite (floorMinutes diff))
        end
  end.

(** The seven names of [getDayName]. *)
Definition dayNames : list string :=
  ["Sunday"; "Monday"; "Tuesday"; "Wednesday"; "Thursday"; "Friday";
   "Saturday"].

(** ** More vocabulary *)

Definition eventTypeEqb (a b : SchedulerEventType) : bool :=
  match a, b with
  | ev_start, ev_start | ev_stop, ev_stop | ev_task_start, ev_task_start
  | ev_task_complete, ev_task_complete | ev_task_error, ev_task_error
  | ev_market_closed, ev_market_closed | ev_error, ev_error => true
  | _, _ => false
  end.

(** The event that [executeTask] emits when it starts the task of a
    result, and the one it emits when the task has settled. *)
Definition startEventOf (r : TaskExecutionResult) : SchedulerEvent :=
  {| type := ev_task_start; timestamp := startTime r;
     data := TaskData (taskId r) (Some (taskName r)) |}.

Definition endEventOf (r : TaskExecutionResult) : SchedulerEvent :=
  {| type := if success r then ev_task_complete else ev_task_error;
     timestamp := endTime r; data := ResultData r |}.

Section MoreVocabulary.
Context {Env : Type}.

(** How many emissions of a log have a given type. *)
Definition countType (ty : SchedulerEventType) (l : list Emission) : nat :=
  List.length (filter (fun e => eventTypeEqb (type (event e)) ty) l).

(** The body of a task resolves in every world. *)
Definition alwaysResolves (t : @ScheduledTask Env) : Prop :=
  forall w, fst (execute t w) = Resolved.

(** A result is what [executeTask] builds for a task run in some world. *)
Definition ranIn (r : TaskExecutionResult) (t : @ScheduledTask Env)
    (w : World) : Prop :=
  r = resultFor t (now w) (now (snd (execute t w))) (fst (execute t w)).

(** The market was open when a task that asks for it was started. *)
Definition startedOpen (fuel : nat) (s : @Sys Env)
    (r : TaskExecutionResult) (t : @ScheduledTask Env) : Prop :=
  forall mh,
    marketHours (config (sched s)) = Some mh ->
    respectMarketHours (config (sched s)) = true ->
    truthy (requiresMarketOpen t) = true ->
    exists st, isMarketOpen fuel mh (startTime r) = Some st /\ isOpen st = true.

(** The emissions of [executeTask] for a list of results. *)
Definition taskEvents (s : @Sys Env) (results : list TaskExecutionResult)
    : list Emission :=
  flat_map (fun r => [emission s (startEventOf r); emission s (endEventOf r)])
           results.

(** [getConfig()] of the orchestrator: a copy of its configuration. *)
Definition getConfig (o : @TradingOrchestrator Env) : OrchestratorConfig :=
  oconfig o.

(** The default task of a feature. *)
Definition defaultTask (feature : Feature) (dry : bool)
    : @ScheduledTask Env :=
  match feature with
  | EnablePositionMonitoring => monitorTask dry
  | EnableEntryScanning => scanTask dry
  | EnableRollManagement => rollTask dry
  end.

(** A result is well formed and was announced: its duration is the
    difference of its times, it has an error message exactly when it is
    not a success, and the log holds the event that [executeTask] emits
    for it when the task has settled. *)
Definition recorded (log : list Emission) (r : TaskExecutionResult) : Prop :=
  durationMs r = JS.getTime (endTime r) - JS.getTime (startTime r) /\
  (success r = true <-> error r = None) /\
  exists e, In e log /\ event e = endEventOf r.

(** More of the invariant of the reachable states: the timer, the
    counters, the run times and the start and stop events. *)
Record Inv2 (s : @Sys Env) : Prop := {
  inv_running :
    isRunning (state (sched s)) = true -> intervalId (sched s) <> None;
  inv_counters :
    0 <= consecutiveErrors (state (sched s)) <= totalRuns (state (sched s));
  inv_runTimes :
    match lastRunTime (state (sched s)), nextRunTime (state (sched s)) with
    | None, None => True
    | Some l, Some n =>
        n = l + intervalMinutes (config (sched s)) * 60 * 1000
    | _, _ => False
    end;
  inv_balance :
    countType ev_start (emitted s) =
      (countType ev_stop (emitted s)
       + if isRunning (state (sched s)) then 1 else 0)%nat
}.

End MoreVocabulary.

(** ** More example systems *)

(** A started scheduler whose threshold is 0 and whose one task always
    succeeds. *)
Definition exZero : @Sys unit :=
  runOps 17 [OpRegisterTask (exTask "A" None Resolved); OpStart]
    (initSys (exConfig (Some 0)) exWorld).

(** A task that takes until 17:00, after the close of the market. *)
Definition exLate : @ScheduledTask unit :=
  {| id := "late"; name := "late";
     execute := fun w =>
       (Resolved, {| now := JS.mkDate 2025 1 2 17 0; env := env w |});
     enabled := true; priority := Some 100; requiresMarketOpen := None |}.

Definition exGated : @ScheduledTask unit :=
  {| id := "gated"; name := "gated"; execute := fun w => (Resolved, w);
     enabled := true; priority := Some 50; requiresMarketOpen := Some true |}.

(** The late task, a task that needs the market open, and a task that
    does not. *)
Definition exMixed : @Sys unit :=
  runOps 17
    [OpRegisterTask exLate; OpRegisterTask exGated;
     OpRegisterTask (exTask "free" (Some 10) Resolved)]
    (initSys (exConfig None) exWorld).

(** * Proofs *)


(** ** Calendar facts *)

Module JSFacts.
Import JS.

Ltac zdiv := Z.div_mod_to_equations; lia.

Lemma days_from_civil_linear y m d :
  days_from_civil y m d = days_from_civil y m 1 + d - 1.
Proof. unfold days_from_civil. lia. Qed.

(** The intermediate quantities of [civil_from_days], with their ranges. *)
Lemma civil_from_days_spec z :
  exists era yoe doy mp,
    0 <= yoe <= 399 /\ 0 <= doy <= 365 /\ 0 <= mp <= 11 /\
    mp = (5 * doy + 2) / 153 /\
    z = era * 146097 + (yoe * 365 + yoe / 4 - yoe / 100 + doy) - 719468 /\
    civil_from_days z =
      (if mp <? 10 then yoe + era * 400 else yoe + era * 400 + 1,
       if mp <? 10 then mp + 3 else mp - 9,
       doy - (153 * mp + 2) / 5 + 1).
Proof.
  unfold civil_from_days.
  set (zz := z + 719468).
  set (era := zz / 146097).
  set (doe := zz - era * 146097).
  assert (Hdoe : 0 <= doe <= 146096) by (subst doe era; zdiv).
  assert (Hz : z = era * 146097 + doe - 719468) by (subst doe zz; lia).
  clearbody doe era. clear zz.
  set (yoe := (doe - doe / 1460 + doe / 36524 - doe / 146096) / 365).
  set (doy := doe - (365 * yoe + yoe / 4 - yoe / 100)).
  assert (Hyoe : 0 <= yoe <= 399) by (subst yoe; zdiv).
  assert (Hdoy : 0 <= doy <= 365) by (subst doy yoe; zdiv).
  assert (Hdoe' : doe = yoe * 365 + yoe / 4 - yoe / 100 + doy)
    by (subst doy; lia).
  clearbody doy yoe.
  set (mp := (5 * doy + 2) / 153).
  assert (Hmp : 0 <= mp <= 11) by (subst mp; zdiv).
  exists era, yoe, doy, mp.
  repeat split; try lia.
  destruct (mp <? 10) eqn:E.
  - apply Z.ltb_lt in E.
    replace (mp + 3 <=? 2) with false by (symmetry; apply Z.leb_gt; lia).
    reflexivity.
  - apply Z.ltb_ge in E.
    replace (mp - 9 <=? 2) with true by (symmetry; apply Z.leb_le; lia).
    reflexivity.
Qed.

Lemma civil_roundtrip z :
  let '(y, m, d) := civil_from_days z in days_from_civil y m d = z.
Proof.
  destruct (civil_from_days_spec z)
    as (era & yoe & doy & mp & Hyoe & Hdoy & Hmp & Emp & Hz & ->).
  unfold days_from_civil.
  destruct (mp <? 10) eqn:E.
  - apply Z.ltb_lt in E.
    replace (mp + 3 <=? 2) with false by (symmetry; apply Z.leb_gt; lia).
    replace (mp + 3 >? 2) with true by (symmetry; rewrite Z.gtb_ltb; apply Z.ltb_lt; lia).
    replace (mp + 3 - 3) with mp by lia.
    replace ((yoe + era * 400) / 400) with era by zdiv.
    replace (yoe + era * 400 - era * 400) with yoe by lia.
    lia.
  - apply Z.ltb_ge in E.
    replace (mp - 9 <=? 2) with true by (symmetry; apply Z.leb_le; lia).
    replace (mp - 9 >? 2) with false by (symmetry; rewrite Z.gtb_ltb; apply Z.ltb_ge; lia).
    replace (mp - 9 + 9) with mp by lia.
    replace ((yoe + era * 400 + 1 - 1) / 400) with era by zdiv.
    replace (yoe + era * 400 + 1 - 1 - era * 400) with yoe by lia.
    lia.
Qed.

Lemma civil_month_day_range z :
  let '(_, m, d) := civil_from_days z in 1 <= m <= 12 /\ 1 <= d <= 31.
Proof.
  destruct (civil_from_days_spec z)
    as (era & yoe & doy & mp & Hyoe & Hdoy & Hmp & Emp & Hz & ->).
  destruct (mp <? 10) eqn:E;
    [apply Z.ltb_lt in E | apply Z.ltb_ge in E]; subst mp; split; zdiv.
Qed.

Lemma civil_from_days_inj a b :
  civil_from_days a = civil_from_days b -> a = b.
Proof.
  intros E. pose proof (civil_roundtrip a) as Ha.
  pose proof (civil_roundtrip b) as Hb. rewrite E in Ha.
  destruct (civil_from_days b) as [[y m] d]. congruence.
Qed.

Lemma Day_TimeWithinDay t : t = Day t * msPerDay + TimeWithinDay t.
Proof. unfold Day, TimeWithinDay, msPerDay. zdiv. Qed.

(** [setDate(getDate() + 1)] moves to the same time on the next day. *)
Lemma setDate_succ t : setDate t (getDate t + 1) = t + msPerDay.
Proof.
  unfold setDate, MakeDay, getFullYear, getMonth, getDate.
  pose proof (civil_roundtrip (Day t)) as R.
  destruct (civil_from_days (Day t)) as [[y m] d].
  rewrite days_from_civil_linear in R.
  replace (m - 1 + 1) with m by lia.
  pose proof (Day_TimeWithinDay t) as H. rewrite <- R in H.
  generalize dependent (TimeWithinDay t).
  generalize (days_from_civil y m 1). unfold msPerDay. intros; lia.
Qed.

Lemma Day_add_days t k : Day (t + k * msPerDay) = Day t + k.
Proof. unfold Day, msPerDay. zdiv. Qed.

Lemma TimeWithinDay_add_days t k :
  TimeWithinDay (t + k * msPerDay) = TimeWithinDay t.
Proof. unfold TimeWithinDay, msPerDay. zdiv. Qed.

Lemma getDay_add_days t k : getDay (t + k * msPerDay) = (getDay t + k) mod 7.
Proof. unfold getDay. rewrite Day_add_days. zdiv. Qed.

Lemma getDay_range t : 0 <= getDay t < 7.
Proof. unfold getDay. zdiv. Qed.

Lemma Day_setHours t h m :
  0 <= h < 24 -> 0 <= m < 60 -> Day (setHours t h m 0 0) = Day t.
Proof. unfold setHours, Day, msPerDay, msPerHour, msPerMinute. intros. zdiv. Qed.

Lemma minutes_setHours t h m :
  0 <= h < 24 -> 0 <= m < 60 ->
  getHours (setHours t h m 0 0) = h /\ getMinutes (setHours t h m 0 0) = m.
Proof.
  unfold setHours, getHours, getMinutes, Day, msPerDay, msPerHour, msPerMinute.
  intros. split; zdiv.
Qed.
End JSFacts.


Module StringFacts.
Import JS.

Lemma length_append (a b : string) :
  String.length (a ++ b) = (String.length a + String.length b)%nat.
Proof. induction a as [|c a IH]; simpl; [reflexivity | now rewrite IH]. Qed.

Lemma append_inj_prefix (a a' b b' : string) :
  String.length a = String.length a' -> (a ++ b = a' ++ b')%string -> a = a' /\ b = b'.
Proof.
  revert a'. induction a as [|c a IH]; intros [|c' a'] L E; simpl in *;
    try discriminate; auto.
  injection E as -> E. injection L as L.
  destruct (IH a' L E) as [-> ->]. auto.
Qed.

Lemma append_inj_suffix (a a' b b' : string) :
  String.length b = String.length b' -> (a ++ b = a' ++ b')%string -> a = a' /\ b = b'.
Proof.
  intros L E. apply append_inj_prefix; auto.
  apply (f_equal String.length) in E. rewrite !length_append in E. lia.
Qed.

Lemma String_of_number_inj a b :
  String_of_number a = String_of_number b -> a = b.
Proof.
  unfold String_of_number. intros E.
  apply (f_equal NilEmpty.int_of_string) in E.
  rewrite !NilEmpty.isi in E. injection E as E.
  now apply DecimalZ.to_int_inj.
Qed.

Definition pad2 (n : Z) : string := padStart 2 "0" (String_of_number n).

Lemma below_100_cases (P : Z -> Prop) :
  (forall k, In k (seq 0 100) -> P (Z.of_nat k)) ->
  forall n, 0 <= n <= 99 -> P n.
Proof.
  intros H n Hn. rewrite <- (Z2Nat.id n) by lia.
  apply H, in_seq. lia.
Qed.

Lemma pad2_length n : 0 <= n <= 99 -> String.length (pad2 n) = 2%nat.
Proof.
  revert n. apply below_100_cases.
  assert (E : forallb (fun k => Nat.eqb (String.length (pad2 (Z.of_nat k))) 2)
                (seq 0 100) = true) by (vm_compute; reflexivity).
  rewrite forallb_forall in E. intros k Hk.
  now apply Nat.eqb_eq, E.
Qed.

Lemma pad2_inj a b : 0 <= a <= 99 -> 0 <= b <= 99 -> pad2 a = pad2 b -> a = b.
Proof.
  intros Ha Hb. revert a Ha b Hb.
  refine (below_100_cases _ _). intros i Hi.
  refine (below_100_cases _ _). intros j Hj E.
  assert (T : forallb (fun i => forallb (fun j =>
                implb (String.eqb (pad2 (Z.of_nat i)) (pad2 (Z.of_nat j)))
                      (Nat.eqb i j)) (seq 0 100)) (seq 0 100) = true)
    by (vm_compute; reflexivity).
  rewrite forallb_forall in T. specialize (T i Hi).
  rewrite forallb_forall in T. specialize (T j Hj).
  apply String.eqb_eq in E. rewrite E in T. simpl in T.
  apply Nat.eqb_eq in T. now subst.
Qed.

(** Two timestamps print as the same date only on the same day. *)
Lemma formatDate_inj a b : formatDate a = formatDate b -> Day a = Day b.
Proof.
  unfold formatDate, getFullYear, getMonth, getDate. intros E.
  apply JSFacts.civil_from_days_inj.
  pose proof (JSFacts.civil_month_day_range (Day a)) as Ra.
  pose proof (JSFacts.civil_month_day_range (Day b)) as Rb.
  destruct (civil_from_days (Day a)) as [[ya ma] da].
  destruct (civil_from_days (Day b)) as [[yb mb] db].
  replace (ma - 1 + 1) with ma in E by lia.
  replace (mb - 1 + 1) with mb in E by lia.
  fold (pad2 ma) (pad2 da) (pad2 mb) (pad2 db) in E.
  destruct Ra as [Rma Rda], Rb as [Rmb Rdb].
  apply append_inj_suffix in E.
  2:{ simpl. rewrite !length_append. simpl.
      rewrite !pad2_length by lia. reflexivity. }
  destruct E as [Ey E]. apply String_of_number_inj in Ey.
  simpl in E. injection E as E.
  apply append_inj_prefix in E; [|rewrite !pad2_length by lia; reflexivity].
  destruct E as [Em E]. simpl in E. injection E as E.
  apply pad2_inj in Em, E; try lia. congruence.
Qed.
End StringFacts.


Section MarketHoursFacts.
Import JS.
Variable config : MarketHoursConfig.

Lemma nextDay_eq t : nextDay t = t + msPerDay.
Proof. unfold nextDay. now rewrite JSFacts.setDate_succ. Qed.

Lemma Day_nextDay t : Day (nextDay t) = Day t + 1.
Proof.
  rewrite nextDay_eq. replace (t + msPerDay) with (t + 1 * msPerDay) by lia.
  apply JSFacts.Day_add_days.
Qed.

Lemma includesZ_In xs x : includesZ xs x = true <-> In x xs.
Proof.
  unfold includesZ. rewrite existsb_exists. split.
  - intros (y & Hy & E). apply Z.eqb_eq in E. now subst.
  - intros H. exists x. split; [assumption | apply Z.eqb_refl].
Qed.

Lemma includesS_In xs x : includesS xs x = true <-> In x xs.
Proof.
  unfold includesS. rewrite existsb_exists. split.
  - intros (y & Hy & E). apply String.eqb_eq in E. now subst.
  - intros H. exists x. split; [assumption | apply String.eqb_refl].
Qed.

(** What a finished run of the weekday loop returns. *)
Lemma skipClosedDays_some fuel t r :
  skipClosedDays fuel config t = Some r ->
  openDay config r = true /\ Day t <= Day r /\ TimeWithinDay r = TimeWithinDay t.
Proof.
  revert t. induction fuel as [|f IH]; intros t; cbn [skipClosedDays];
    [discriminate|].
  fold (openDay config t). destruct (openDay config t) eqn:E; cbn [negb].
  - intros [= <-]. repeat split; [assumption | lia].
  - intros H. destruct (IH _ H) as (Ho & Hd & Ht).
    rewrite Day_nextDay in Hd. rewrite nextDay_eq in Ht.
    replace (t + msPerDay) with (t + 1 * msPerDay) in Ht by lia.
    rewrite JSFacts.TimeWithinDay_add_days in Ht.
    repeat split; [assumption | lia | assumption].
Qed.

Lemma skipClosedDays_mono fuel fuel' t r :
  (fuel <= fuel')%nat ->
  skipClosedDays fuel config t = Some r ->
  skipClosedDays fuel' config t = Some r.
Proof.
  revert fuel' t. induction fuel as [|f IH]; intros [|f'] t L;
    cbn [skipClosedDays]; try discriminate; try lia.
  destruct (negb _); [apply IH; lia | auto].
Qed.

Hypothesis some_open_day :
  existsb (fun d => (0 <=? d) && (d <=? 6)) (openDays config) = true.

(** The weekday loop stops within a week. *)
Lemma skipClosedDays_within n : forall t,
  openDay config (t + Z.of_nat n * msPerDay) = true ->
  exists r, skipClosedDays (S n) config t = Some r.
Proof.
  induction n as [|n IH]; intros t H.
  - replace (t + Z.of_nat 0 * msPerDay) with t in H by lia.
    cbn [skipClosedDays]. fold (openDay config t). rewrite H. cbn [negb]. eauto.
  - cbn [skipClosedDays]. fold (openDay config t).
    destruct (openDay config t); cbn [negb]; [eauto|].
    apply IH. rewrite nextDay_eq.
    replace (t + msPerDay + Z.of_nat n * msPerDay)
      with (t + Z.of_nat (S n) * msPerDay) by lia.
    assumption.
Qed.

Lemma skipClosedDays_terminates fuel t :
  (7 <= fuel)%nat -> exists r, skipClosedDays fuel config t = Some r.
Proof.
  intros Hfuel.
  apply existsb_exists in some_open_day as (d & Hin & Hd).
  assert (Hr : 0 <= d <= 6) by lia.
  pose proof (JSFacts.getDay_range t) as Hg.
  set (k := (d - getDay t) mod 7).
  assert (Hk : 0 <= k <= 6) by (subst k; Z.div_mod_to_equations; lia).
  destruct (skipClosedDays_within (Z.to_nat k) t) as [r Hs].
  - unfold openDay. rewrite JSFacts.getDay_add_days, Z2Nat.id by lia.
    replace ((getDay t + k) mod 7) with d
      by (subst k; Z.div_mod_to_equations; lia).
    now apply includesZ_In.
  - exists r. eapply skipClosedDays_mono; [|exact Hs]. lia.
Qed.

(** What a finished run of the holiday loop returns. *)
Lemma skipHolidays_some fuel0 fuel t r :
  openDay config t = true ->
  skipHolidays fuel0 fuel config t = Some r ->
  openDay config r = true /\ isHoliday config (formatDate r) = false /\
  Day t <= Day r /\ TimeWithinDay r = TimeWithinDay t.
Proof.
  revert t. induction fuel as [|f IH]; intros t Ho; cbn [skipHolidays];
    [discriminate|].
  destruct (isHoliday config (formatDate t)) eqn:E.
  - destruct (skipClosedDays fuel0 config (nextDay t)) as [t'|] eqn:E1;
      [|discriminate].
    intros H. apply skipClosedDays_some in E1 as (Ho' & Hd' & Ht').
    destruct (IH _ Ho' H) as (H1 & H2 & H3 & H4).
    rewrite Day_nextDay in Hd'. rewrite nextDay_eq in Ht'.
    replace (t + msPerDay) with (t + 1 * msPerDay) in Ht' by lia.
    rewrite JSFacts.TimeWithinDay_add_days in Ht'.
    repeat split; [assumption | assumption | lia | congruence].
  - intros [= <-]. repeat split; [assumption | assumption | lia].
Qed.

(** The holiday loop meets each holiday string on at most one day, so it
    stops after as many rounds as there are holidays. *)
Lemma skipHolidays_terminates fuel0 n : forall (hs : list string) t,
  (7 <= fuel0)%nat ->
  (List.length hs <= n)%nat ->
  (forall u, Day t <= Day u -> isHoliday config (formatDate u) = true ->
             In (formatDate u) hs) ->
  exists r, skipHolidays fuel0 (S n) config t = Some r.
Proof.
  induction n as [|n IH]; intros hs t F L Hcov; cbn [skipHolidays].
  - destruct (isHoliday config (formatDate t)) eqn:E; [|eauto].
    apply Hcov in E; [|lia]. destruct hs; [destruct E | simpl in L; lia].
  - destruct (isHoliday config (formatDate t)) eqn:E; [|eauto].
    destruct (skipClosedDays_terminates fuel0 (nextDay t) F) as [t' Ht'].
    rewrite Ht'.
    apply (IH (remove string_dec (formatDate t) hs)); [exact F | |].
    + assert (In (formatDate t) hs) as Hin by (apply Hcov; [lia | assumption]).
      pose proof (remove_length_lt string_dec hs (formatDate t) Hin). lia.
    + intros u Hu Eu. apply skipClosedDays_some in Ht' as (_ & Hd & _).
      rewrite Day_nextDay in Hd.
      apply in_in_remove.
      * intros Heq. apply StringFacts.formatDate_inj in Heq. lia.
      * apply Hcov; [lia | assumption].
Qed.

Lemma skipHolidays_mono fuel0 fuel fuel' t r :
  (fuel <= fuel')%nat ->
  skipHolidays fuel0 fuel config t = Some r ->
  skipHolidays fuel0 fuel' config t = Some r.
Proof.
  revert fuel' t. induction fuel as [|f IH]; intros [|f'] t L;
    cbn [skipHolidays]; try discriminate; try lia.
  destruct (isHoliday _ _); [|auto].
  destruct (skipClosedDays fuel0 config (nextDay t)); [apply IH; lia | auto].
Qed.
End MarketHoursFacts.


Section OracleFacts.
Import JS.
Variable config : MarketHoursConfig.

Lemma validTime_parse s :
  validTime s = true ->
  exists h m, parseTime s = Some (h, m) /\ 0 <= h < 24 /\ 0 <= m < 60 /\
              minutesOf s = h * 60 + m.
Proof.
  unfold validTime, minutesOf. destruct (parseTime s) as [[h m]|];
    [|discriminate].
  intros H. exists h, m. repeat split; try reflexivity; lia.
Qed.

Lemma calendarOk_parts :
  calendarOk config = true ->
  validTime (openTime config) = true /\ validTime (closeTime config) = true /\
  existsb (fun d => (0 <=? d) && (d <=? 6)) (openDays config) = true.
Proof.
  unfold calendarOk. rewrite !andb_true_iff. tauto.
Qed.

Lemma wellFormed_parts :
  wellFormed config = true ->
  calendarOk config = true /\ effectiveOpen config < effectiveClose config.
Proof.
  unfold wellFormed. rewrite andb_true_iff, Z.ltb_lt. tauto.
Qed.

Lemma minuteOfDay_setHours t h m :
  0 <= h < 24 -> 0 <= m < 60 -> minuteOfDay (setHours t h m 0 0) = h * 60 + m.
Proof.
  intros Hh Hm. unfold minuteOfDay.
  destruct (JSFacts.minutes_setHours t h m Hh Hm) as [-> ->]. reflexivity.
Qed.

Lemma minuteOfDay_TimeWithinDay a b :
  TimeWithinDay a = TimeWithinDay b -> minuteOfDay a = minuteOfDay b.
Proof.
  unfold minuteOfDay, getHours, getMinutes, TimeWithinDay, msPerDay,
    msPerHour, msPerMinute.
  intros H. Z.div_mod_to_equations. lia.
Qed.

(** With enough fuel [getNextOpenTime] returns, and what it returns is the
    opening time of a later day that is an open day and not a holiday. *)
Lemma getNextOpenTime_total fuel from :
  calendarOk config = true ->
  (enoughFuel config <= fuel)%nat ->
  exists next,
    getNextOpenTime fuel config from = Some next /\
    Day from < Day next /\
    includesZ (openDays config) (getDay next) = true /\
    isHoliday config (formatDate next) = false /\
    minuteOfDay next = minutesOf (openTime config).
Proof.
  intros Hok Hfuel. apply calendarOk_parts in Hok as (Ho & _ & Hd).
  apply validTime_parse in Ho as (h & m & Hp & Hh & Hm & Hmin).
  unfold getNextOpenTime. rewrite Hp.
  unfold enoughFuel in Hfuel.
  set (t0 := setHours (nextDay from) h m 0 0).
  assert (Dt0 : Day t0 = Day from + 1).
  { unfold t0. rewrite JSFacts.Day_setHours by assumption.
    apply Day_nextDay. }
  destruct (skipClosedDays_terminates config Hd fuel t0) as [t1 H1]; [lia|].
  rewrite H1.
  destruct (skipClosedDays_some config _ _ _ H1) as (O1 & D1 & T1).
  destruct (skipHolidays_terminates config Hd fuel
              (List.length (holidays config ?? [])) (holidays config ?? []) t1)
    as [t2 H2]; [lia | lia | |].
  { intros u _. unfold isHoliday. destruct (holidays config); [|discriminate].
    apply includesS_In. }
  apply (skipHolidays_mono config fuel _ fuel) in H2; [|lia].
  exists t2. split; [assumption|].
  destruct (skipHolidays_some config _ _ _ _ O1 H2) as (O2 & N2 & D2 & T2).
  repeat split; try assumption; [lia|].
  rewrite Hmin, <- (minuteOfDay_setHours (nextDay from) h m Hh Hm).
  apply minuteOfDay_TimeWithinDay. fold t0. congruence.
Qed.

(** The oracle returns for every timestamp, given enough fuel. *)
Lemma isMarketOpen_total fuel t :
  calendarOk config = true ->
  (enoughFuel config <= fuel)%nat ->
  exists st, isMarketOpen fuel config t = Some st.
Proof.
  intros Hok Hfuel.
  destruct (getNextOpenTime_total fuel t Hok Hfuel) as (next & Hn & _).
  apply calendarOk_parts in Hok as (Ho & Hc & _).
  apply validTime_parse in Ho as (h & m & Hp & _).
  apply validTime_parse in Hc as (h' & m' & Hp' & _).
  unfold isMarketOpen, closedStatus, getNextCloseTime. rewrite Hn, Hp, Hp'.
  repeat match goal with |- context [if ?b then _ else _] => destruct b end;
    eauto.
Qed.
End OracleFacts.


Section OracleBranches.
Import JS.
Variable config : MarketHoursConfig.
Variable t : Date.
Hypothesis open_day : includesZ (openDays config) (getDay t) = true.
Hypothesis no_holiday : isHoliday config (formatDate t) = false.

(** On an open day that is no holiday the oracle compares the minute of
    the day with the two effective bounds. *)
Lemma isMarketOpen_open_day fuel :
  calendarOk config = true ->
  isMarketOpen fuel config t =
    if minuteOfDay t <? effectiveOpen config then
      closedStatus fuel config t
        ("Before market open (opens at " ++ openTime config ++ ")")
    else if minuteOfDay t >=? effectiveClose config then
      closedStatus fuel config t
        ("After market close (closed at " ++ closeTime config ++ ")")
    else
      match getNextCloseTime config t with
      | None => None
      | Some close =>
          Some {| isOpen := true; currentTime := t; closedReason := None;
                  nextOpenTime := None; nextCloseTime := Some close |}
      end.
Proof.
  intros Hok. apply calendarOk_parts in Hok as (Ho & Hc & _).
  unfold isMarketOpen. rewrite open_day, no_holiday. cbn [negb].
  unfold effectiveOpen, effectiveClose, minuteOfDay.
  apply validTime_parse in Ho as (h & m & Hp & _ & _ & ->).
  apply validTime_parse in Hc as (h' & m' & Hp' & _ & _ & ->).
  rewrite Hp, Hp'. reflexivity.
Qed.

Lemma closedStatus_total fuel reason :
  calendarOk config = true ->
  (enoughFuel config <= fuel)%nat ->
  exists next,
    closedStatus fuel config t reason =
      Some {| isOpen := false; currentTime := t; closedReason := Some reason;
              nextOpenTime := Some next; nextCloseTime := None |} /\
    Day t < Day next.
Proof.
  intros Hok Hfuel.
  destruct (getNextOpenTime_total config fuel t Hok Hfuel) as (next & Hn & Hd & _).
  exists next. unfold closedStatus. rewrite Hn. auto.
Qed.

(** Before the effective open the oracle answers closed, and the next open
    time it reports lies on a later day, never on the day of the query. *)
Lemma isMarketOpen_before_open fuel :
  calendarOk config = true ->
  (enoughFuel config <= fuel)%nat ->
  minuteOfDay t < effectiveOpen config ->
  exists st next,
    isMarketOpen fuel config t = Some st /\ isOpen st = false /\
    nextOpenTime st = Some next /\ Day t < Day next.
Proof.
  intros Hok Hfuel Hlt. rewrite isMarketOpen_open_day by assumption.
  apply Z.ltb_lt in Hlt. rewrite Hlt.
  destruct (closedStatus_total fuel
              ("Before market open (opens at " ++ openTime config ++ ")")
              Hok Hfuel) as (next & -> & Hd).
  eexists _, next. repeat split. exact Hd.
Qed.
End OracleBranches.

(** C3. For a well-formed configuration and timestamps on an open weekday
    that is no holiday: at the minute of the day equal to
    openTime + graceAfterOpen, isMarketOpen answers isOpen = true; at the
    minute of the day equal to closeTime - graceBeforeClose, it answers
    isOpen = false. *)
Theorem isMarketOpen_boundaries :
  forall (config : MarketHoursConfig) (tOpen tClose : JS.Date)
         (fuel1 fuel2 : nat),
    wellFormed config = true ->
    JS.includesZ (openDays config) (JS.getDay tOpen) = true ->
    isHoliday config (formatDate tOpen) = false ->
    JS.includesZ (openDays config) (JS.getDay tClose) = true ->
    isHoliday config (formatDate tClose) = false ->
    minuteOfDay tOpen = effectiveOpen config ->
    minuteOfDay tClose = effectiveClose config ->
    (enoughFuel config <= fuel2)%nat ->
    (exists st, isMarketOpen fuel1 config tOpen = Some st /\ isOpen st = true)
    /\
    (exists st, isMarketOpen fuel2 config tClose = Some st /\ isOpen st = false).
Proof.
  intros config tOpen tClose fuel1 fuel2 Hwf Ho1 Hh1 Ho2 Hh2 Eo Ec Hfuel.
  apply wellFormed_parts in Hwf as (Hok & Hwin).
  split.
  - rewrite isMarketOpen_open_day by assumption.
    rewrite Eo, Z.ltb_irrefl.
    replace (effectiveOpen config >=? effectiveClose config) with false
      by (symmetry; rewrite Z.geb_leb; apply Z.leb_gt; lia).
    apply calendarOk_parts in Hok as (_ & Hc & _).
    apply validTime_parse in Hc as (h & m & Hp & _).
    unfold getNextCloseTime. rewrite Hp. eauto.
  - rewrite isMarketOpen_open_day by assumption. rewrite Ec.
    assert (E : (effectiveClose config >=? effectiveClose config) = true)
      by (rewrite Z.geb_leb; apply Z.leb_refl).
    rewrite E.
    destruct (closedStatus_total config tClose fuel2
                ("Before market open (opens at " ++ openTime config ++ ")")
                Hok Hfuel) as (n1 & -> & _).
    destruct (closedStatus_total config tClose fuel2
                ("After market close (closed at " ++ closeTime config ++ ")")
                Hok Hfuel) as (n2 & -> & _).
    destruct (_ <? _); eauto.
Qed.

Lemma isMarketOpen_boundaries_witness :
  (exists st, isMarketOpen 0 getUSMarketHoursConfig (JS.mkDate 2025 1 2 9 45)
              = Some st /\ isOpen st = true) /\
  (exists st, isMarketOpen 17 getUSMarketHoursConfig (JS.mkDate 2025 1 2 15 45)
              = Some st /\ isOpen st = false).
Proof.
  apply (isMarketOpen_boundaries getUSMarketHoursConfig
           (JS.mkDate 2025 1 2 9 45) (JS.mkDate 2025 1 2 15 45) 0 17);
    vm_compute; solve [reflexivity | intros; discriminate].
Defined.

(** C2. On Thursday 2025-01-02 at 08:00, an open weekday that is no holiday
    and before the effective open of the US configuration, with the day's
    open time 09:30 still ahead, isMarketOpen answers closed and reports
    the next open time as 2025-01-03 09:30, not the open time of the day. *)
Theorem before_open_reports_next_day :
  let cfg := getUSMarketHoursConfig in
  let t := JS.mkDate 2025 1 2 8 0 in
  JS.includesZ (openDays cfg) (JS.getDay t) = true /\
  isHoliday cfg (formatDate t) = false /\
  minuteOfDay t < effectiveOpen cfg /\
  t < JS.mkDate 2025 1 2 9 30 /\
  isMarketOpen 17 cfg t =
    Some {| isOpen := false; currentTime := t;
            closedReason := Some "Before market open (opens at 09:30)";
            nextOpenTime := Some (JS.mkDate 2025 1 3 9 30);
            nextCloseTime := None |} /\
  JS.mkDate 2025 1 3 9 30 <> JS.mkDate 2025 1 2 9 30.
Proof.
  vm_compute. repeat split; try reflexivity; discriminate.
Qed.


Section SchedulerFacts.
Context {Env : Type}.
Implicit Types (s : @Sys Env) (task : @ScheduledTask Env).

(** Unfolds the monadic glue of a method body. *)
Ltac run_st :=
  cbv [bind ret get modify modifyState diverge liftOption try_catch
       newDate emit awaitExecute queryMarket clearInterval setInterval].

Lemma emit_spec e s :
  emit e s =
    (Normal tt,
     {| sched := sched s; world := world s; timers := timers s;
        nextTimer := nextTimer s;
        emitted := emitted s ++ [emission s e] |}).
Proof. reflexivity. Qed.

(** [executeTask] always returns a result; it emits the start of the task
    and then its completion or its error. *)
Lemma executeTask_spec task s :
  let '(out, w) := execute task (world s) in
  let r := resultFor task (now (world s)) (now w) out in
  executeTask task s =
    (Normal r,
     {| sched := sched s; world := w; timers := timers s;
        nextTimer := nextTimer s;
        emitted := emitted s ++
          [emission s {| type := ev_task_start; timestamp := now (world s);
                         data := TaskData (id task) (Some (name task)) |};
           emission s {| type := if success r then ev_task_complete
                                 else ev_task_error;
                         timestamp := now w;
                         data := ResultData r |}] |}).
Proof.
  unfold executeTask. run_st. cbn.
  destruct (execute task (world s)) as [[|v] w]; cbn;
    rewrite <- app_assoc; reflexivity.
Qed.

Lemma stop_spec s : stop s = (Normal tt, afterStop s).
Proof.
  unfold stop, afterStop. run_st.
  destruct s as [[c t st i h] w ts n em]. cbn.
  destruct (isRunning st); cbn; [|reflexivity].
  destruct i; reflexivity.
Qed.

Lemma afterStop_world s : world (afterStop s) = world s.
Proof. unfold afterStop. destruct (isRunning _); reflexivity. Qed.

Lemma updateState_spec results hasError s :
  updateState results hasError s = (Normal tt, afterUpdate results hasError s).
Proof.
  unfold updateState, afterUpdate. cbv [bind get modify modifyState ret].
  set (s1 := set_sched (set_state (updatedState results hasError)) s).
  match goal with
  | |- context [consecutiveErrors (state (sched ?x))] =>
      assert (E : x = s1)
  end.
  { subst s1. destruct s as [[c t [r l n tr ce h] i hs] w ts nt em].
    unfold updatedState, set_sched, set_state, set_consecutiveErrors,
      set_history, set_totalRuns.
    cbn -[Nat.ltb slice_last].
    destruct hasError; destruct (100 <? _)%nat; reflexivity. }
  rewrite E.
  replace (config (sched s1)) with (config (sched s)) by reflexivity.
  destruct (_ >=? _); [|reflexivity].
  rewrite stop_spec. unfold newDate. rewrite emit_spec.
  unfold addEmission. rewrite afterStop_world. reflexivity.
Qed.

Lemma taskEmission_cons task (ts : list (@ScheduledTask Env)) e :
  taskEmission ts e -> taskEmission (task :: ts) e.
Proof.
  intros (Hty & u & Hin & He). split; [assumption|].
  exists u. split; [now right | assumption].
Qed.

(** One round of the loop: the task is skipped, or run by [executeTask],
    or the oracle does not return. *)
Lemma taskLoop_cons fuel task rest results hasError s :
  taskLoop fuel (task :: rest) results hasError s =
    match
      match marketHours (config (sched s)) with
      | Some mh =>
          if truthy (requiresMarketOpen task)
             && respectMarketHours (config (sched s))
          then option_map (fun st => negb (isOpen st))
                 (isMarketOpen fuel mh (now (world s)))
          else Some false
      | None => Some false
      end
    with
    | None => (Diverge, s)
    | Some true => taskLoop fuel rest results hasError s
    | Some false =>
        match executeTask task s with
        | (Normal result, s1) =>
            taskLoop fuel rest (results ++ [result])
              (if negb (success result) then true else hasError) s1
        | (Throw v, s1) => (Throw v, s1)
        | (Diverge, s1) => (Diverge, s1)
        end
    end.
Proof.
  cbn [taskLoop]. cbv [bind get]. 
  destruct (marketHours (config (sched s))) as [mh|]; [|reflexivity].
  destruct (truthy (requiresMarketOpen task)
            && respectMarketHours (config (sched s))); [|reflexivity].
  cbv [newDate queryMarket liftOption ret diverge].
  destruct (isMarketOpen fuel mh (now (world s))) as [st|]; [|reflexivity].
  cbn. destruct (isOpen st); reflexivity.
Qed.

(** The loop never throws and touches neither the scheduler nor the
    timers; when it returns, its results are those of a subsequence of the
    tasks it was given, in order, and all it emitted are task events. *)
Lemma taskLoop_spec fuel todo :
  forall results hasError s c s',
    taskLoop fuel todo results hasError s = (c, s') ->
    (forall v, c <> Throw v) /\
    sched s' = sched s /\ timers s' = timers s /\
    nextTimer s' = nextTimer s /\
    forall rs he, c = Normal (rs, he) ->
      exists executed new evs,
        rs = results ++ new /\
        Subseq executed todo /\
        Forall2 resultOf new executed /\
        he = (hasError || negb (forallb success new)) /\
        emitted s' = emitted s ++ evs /\
        Forall (taskEmission executed) evs.
Proof.
  induction todo as [|task rest IH]; intros results hasError s c s' H.
  - cbn in H. injection H as <- <-. repeat split; try discriminate.
    intros rs he [= <- <-]. exists [], [], [].
    rewrite !app_nil_r, orb_false_r.
    repeat split; constructor.
  - rewrite taskLoop_cons in H.
    match type of H with
    | match ?x with _ => _ end = _ => destruct x as [[|]|]
    end.
    + destruct (IH _ _ _ _ _ H) as (Hn & Hs & Ht & Hnt & Hr).
      repeat split; try assumption.
      intros rs he E. destruct (Hr rs he E) as (ex & new & evs & ? & ? & ? & ? & ? & ?).
      exists ex, new, evs. repeat split; try assumption.
      now constructor.
    + pose proof (executeTask_spec task s) as X.
      destruct (execute task (world s)) as [out w]. cbn zeta in X.
      rewrite X in H. clear X.
      set (r := resultFor task (now (world s)) (now w) out) in *.
      destruct (IH _ _ _ _ _ H) as (Hn & Hs & Ht & Hnt & Hr).
      repeat split; try assumption.
      intros rs he E.
      destruct (Hr rs he E) as (ex & new & evs & E1 & Hsub & Hf & E2 & E3 & Hev).
      exists (task :: ex), (r :: new). eexists.
      repeat split.
      * rewrite E1, <- app_assoc. reflexivity.
      * now constructor.
      * constructor; [|assumption]. split; reflexivity.
      * rewrite E2. cbn [forallb]. 
        subst r. destruct out, hasError, (forallb success new); reflexivity.
      * rewrite E3. cbn [emitted]. rewrite <- app_assoc. reflexivity.
      * apply Forall_app. split.
        -- assert (Hin : exists u, In u (task :: ex) /\ Some (id task) = Some (id u))
             by (exists task; split; [now left | reflexivity]).
           constructor; [split; [now left | exact Hin]|].
           constructor; [|constructor].
           split; [subst r; destruct out; cbn; auto | exact Hin].
        -- eapply Forall_impl; [|exact Hev]. apply taskEmission_cons.
    + injection H as <- <-. repeat split; try discriminate.
Qed.

Lemma runTasks_unfold fuel s :
  runTasks fuel s =
    match gate s with
    | Some mh =>
        match isMarketOpen fuel mh (now (world s)) with
        | None => (Diverge, cycleStart s)
        | Some st =>
            if negb (isOpen st) then
              emit {| type := ev_market_closed; timestamp := now (world s);
                      data := StatusData st |} (cycleStart s)
            else runEnabledTasks fuel (cycleStart s)
        end
    | None => runEnabledTasks fuel (cycleStart s)
    end.
Proof.
  unfold runTasks, gate. cbv [bind get newDate modifyState modify].
  fold (cycleStart s).
  destruct (marketHours (config (sched s))) as [mh|]; [|reflexivity].
  destruct (respectMarketHours (config (sched s))); [|reflexivity].
  cbv [queryMarket liftOption ret diverge].
  destruct (isMarketOpen fuel mh (now (world s))) as [st|]; [|reflexivity].
  destruct (isOpen st); reflexivity.
Qed.

Lemma runEnabledTasks_unfold fuel s :
  runEnabledTasks fuel s =
    match enabledTasks (sched s) with
    | [] => (Normal tt, s)
    | _ :: _ =>
        match taskLoop fuel (enabledTasks (sched s)) [] false s with
        | (Normal r, s1) => (Normal tt, afterUpdate (fst r) (snd r) s1)
        | (Throw v, s1) => (Throw v, s1)
        | (Diverge, s1) => (Diverge, s1)
        end
    end.
Proof.
  unfold runEnabledTasks. cbv [bind get ret].
  destruct (enabledTasks (sched s)) as [|t ts]; [reflexivity|].
  cbn [List.length Nat.eqb].
  destruct (taskLoop fuel (t :: ts) [] false s) as [[r| |] s1];
    [apply updateState_spec | reflexivity | reflexivity].
Qed.

(** A cycle never throws, and when it completes it does so in one of the
    three ways of [CycleRun]. *)
Lemma runTasks_spec fuel s c s' :
  runTasks fuel s = (c, s') ->
  (forall v, c <> Throw v) /\ (c = Normal tt -> CycleRun fuel s s').
Proof.
  rewrite runTasks_unfold.
  assert (R : runEnabledTasks fuel (cycleStart s) = (c, s') ->
              (forall v, c <> Throw v) /\ (c = Normal tt -> CycleRun fuel s s')).
  { rewrite runEnabledTasks_unfold.
    replace (enabledTasks (sched (cycleStart s))) with (enabledTasks (sched s))
      by reflexivity.
    destruct (enabledTasks (sched s)) as [|t ts] eqn:E.
    - intros [= <- <-]. split; [discriminate|]. intros _.
      now apply cycle_no_tasks.
    - destruct (taskLoop fuel (t :: ts) [] false (cycleStart s))
        as [c1 s1] eqn:L.
      destruct (taskLoop_spec _ _ _ _ _ _ _ L) as (Hn & _).
      destruct c1 as [[rs he]| |]; intros [= <- <-].
      + split; [discriminate|]. intros _.
        eapply cycle_updated with (results := rs) (hasError := he).
        * rewrite E. discriminate.
        * rewrite E. exact L.
        * apply updateState_spec.
      + now destruct (Hn v).
      + split; discriminate. }
  destruct (gate s) as [mh|] eqn:G; [|exact R].
  destruct (isMarketOpen fuel mh (now (world s))) as [st|] eqn:O.
  - destruct (isOpen st) eqn:I; cbn [negb]; [exact R|].
    rewrite emit_spec. intros [= <- <-]. split; [discriminate|]. intros _.
    now apply (cycle_closed fuel s mh st).
  - intros [= <- <-]. split; discriminate.
Qed.

Lemma runTasksCaught_eq fuel s : runTasksCaught fuel s = runTasks fuel s.
Proof.
  unfold runTasksCaught, try_catch.
  destruct (runTasks fuel s) as [c s'] eqn:E.
  destruct (runTasks_spec _ _ _ _ E) as (Hn & _).
  destruct c; try reflexivity. now destruct (Hn v).
Qed.

End SchedulerFacts.


Section MapFacts.
Context {Env : Type}.
Implicit Types (m : list (string * @ScheduledTask Env)).

Lemma map_set_keys_In k v m x :
  In x (map fst (map_set k v m)) -> x = k \/ In x (map fst m).
Proof.
  induction m as [|[k' v'] m IH]; cbn.
  - intros [<-|[]]. now left.
  - destruct (String.eqb_spec k' k) as [->|N]; cbn.
    + intros [<-|H]; auto.
    + intros [<-|H]; auto. destruct (IH H); auto.
Qed.

Lemma map_set_NoDup k v m :
  NoDup (map fst m) -> NoDup (map fst (map_set k v m)).
Proof.
  induction m as [|[k' v'] m IH]; cbn; intros H.
  - repeat constructor. intros [].
  - inversion H as [|? ? Hn Hd]; subst.
    destruct (String.eqb_spec k' k) as [->|N]; cbn.
    + now constructor.
    + constructor; [|now apply IH].
      intros Hin. apply map_set_keys_In in Hin as [->|Hin]; contradiction.
Qed.

Lemma map_set_Forall (P : string * @ScheduledTask Env -> Prop) k v m :
  P (k, v) -> Forall P m -> Forall P (map_set k v m).
Proof.
  intros Hk. induction 1 as [|[k' v'] m Hx Hm IH]; cbn.
  - repeat constructor. assumption.
  - destruct (String.eqb k' k); constructor; assumption.
Qed.

Lemma map_delete_keys k m :
  map fst (map_delete k m) =
    filter (fun x => negb (String.eqb x k)) (map fst m).
Proof.
  unfold map_delete. induction m as [|[k' v'] m IH]; cbn; [reflexivity|].
  destruct (String.eqb k' k); cbn; now rewrite IH.
Qed.

Lemma map_mutate_keys k f m : map fst (map_mutate k f m) = map fst m.
Proof.
  induction m as [|[k' v'] m IH]; cbn; [reflexivity|].
  destruct (String.eqb k' k); cbn; [reflexivity | now rewrite IH].
Qed.

Lemma map_mutate_Forall (P : string * @ScheduledTask Env -> Prop) k f m :
  (forall k' v, P (k', v) -> P (k', f v)) ->
  Forall P m -> Forall P (map_mutate k f m).
Proof.
  intros Hf. induction 1 as [|[k' v'] m Hx Hm IH]; cbn; [constructor|].
  destruct (String.eqb k' k); constructor; auto.
Qed.
End MapFacts.

Section InvariantFacts.
Context {Env : Type}.
Implicit Types (s : @Sys Env) (task : @ScheduledTask Env).

Lemma slice_last_length {A} n (l : list A) :
  (List.length (slice_last n l) <= n)%nat.
Proof. unfold slice_last. rewrite length_skipn. lia. Qed.

Lemma updatedState_history results hasError st :
  (List.length (history (updatedState results hasError st)) <= 100)%nat.
Proof.
  unfold updatedState. cbn [history].
  destruct (Nat.ltb_spec 100 (List.length (history st ++ results)));
    [apply slice_last_length | assumption].
Qed.

(** The invariant looks at the tasks, the running flag, the history, the
    timer handle and the armed timers only. *)
Lemma Inv_same s s' :
  tasks (sched s') = tasks (sched s) ->
  isRunning (state (sched s')) = isRunning (state (sched s)) ->
  history (state (sched s')) = history (state (sched s)) ->
  intervalId (sched s') = intervalId (sched s) ->
  timers s' = timers s ->
  Inv s -> Inv s'.
Proof.
  intros Et Er Eh Ei Etm [H1 H2 H3 H4 H5].
  constructor; rewrite ?Et, ?Er, ?Eh, ?Ei, ?Etm; assumption.
Qed.

Lemma Inv_init cfg (w : @World Env) : Inv (initSys cfg w).
Proof.
  constructor; cbn; auto; try lia; constructor.
Qed.

Lemma Inv_afterStop s : Inv s -> Inv (afterStop s).
Proof.
  intros I. unfold afterStop.
  destruct (isRunning (state (sched s))) eqn:R; [|assumption].
  destruct I as [H1 H2 H3 H4 H5].
  constructor; cbn; auto.
  rewrite H2. destruct (intervalId (sched s)); cbn; [|reflexivity].
  now rewrite Nat.eqb_refl.
Qed.

Lemma afterStop_stopped s :
  Inv s ->
  isRunning (state (sched (afterStop s))) = false /\
  intervalId (sched (afterStop s)) = None /\
  timers (afterStop s) = [].
Proof.
  intros I. pose proof (Inv_afterStop s I) as I'.
  assert (R : isRunning (state (sched (afterStop s))) = false).
  { unfold afterStop. destruct (isRunning (state (sched s))) eqn:R;
      [reflexivity | assumption]. }
  pose proof (inv_stopped _ I' R) as N.
  pose proof (inv_timers _ I') as T. rewrite N in T. auto.
Qed.

Lemma Inv_afterUpdate results hasError s : Inv s -> Inv (afterUpdate results hasError s).
Proof.
  intros I. unfold afterUpdate.
  set (s1 := set_sched (set_state (updatedState results hasError)) s).
  assert (I1 : Inv s1).
  { destruct I as [H1 H2 H3 H4 H5].
    constructor; cbn -[updatedState]; auto. apply updatedState_history. }
  destruct (_ >=? _); [|assumption].
  eapply Inv_same; [| | | | |apply Inv_afterStop, I1]; reflexivity.
Qed.

Lemma Inv_CycleRun fuel s s' : Inv s -> CycleRun fuel s s' -> Inv s'.
Proof.
  intros I [mh st G O C | E | results hasError s1 s2 N L U].
  - eapply Inv_same; [| | | | |exact I]; reflexivity.
  - eapply Inv_same; [| | | | |exact I]; reflexivity.
  - destruct (taskLoop_spec _ _ _ _ _ _ _ L) as (_ & Hs & Ht & _).
    rewrite updateState_spec in U. injection U as <-.
    apply Inv_afterUpdate.
    eapply Inv_same; [| | | | |exact I]; rewrite ?Hs, ?Ht; reflexivity.
Qed.

Lemma Inv_runTasks fuel s s' :
  Inv s -> runTasks fuel s = (Normal tt, s') -> Inv s'.
Proof.
  intros I H. apply runTasks_spec in H as (_ & H).
  eapply Inv_CycleRun; eauto.
Qed.

(** The system in which [start()] runs its first cycle, if any. *)
Lemma start_spec fuel s :
  start fuel s =
    if isRunning (state (sched s)) then (Normal tt, s)
    else
      let s1 :=
        {| sched := set_intervalId (Some (nextTimer s))
                      (set_state (set_isRunning true) (sched s));
           world := world s;
           timers := timers s ++ [nextTimer s];
           nextTimer := S (nextTimer s);
           emitted := emitted s ++
             [emission s {| type := ev_start; timestamp := now (world s);
                            data := NoData |}] |} in
      if truthy (runOnStart (config (sched s))) then runTasks fuel s1
      else (Normal tt, s1).
Proof.
  unfold start. cbv [bind get modifyState modify newDate emit setInterval ret].
  destruct (isRunning (state (sched s))); [reflexivity|].
  cbn -[runTasks runTasksCaught].
  destruct (truthy (runOnStart (config (sched s)))); [|reflexivity].
  rewrite runTasksCaught_eq. reflexivity.
Qed.

Lemma Inv_step fuel s op s' : Inv s -> step fuel s op s' -> Inv s'.
Proof.
  intros I H. inversion H as [s0 op0 s1 En P]; subst s0 op0 s1. clear H.
  destruct op; cbn [perform] in P.
  - (* registerTask *)
    unfold registerTask in P. cbv [bind modify newDate] in P.
    rewrite emit_spec in P. injection P as <-.
    destruct I as [H1 H2 H3 H4 H5].
    constructor; cbn; auto.
    + now apply map_set_NoDup.
    + now apply map_set_Forall.
  - (* unregisterTask *)
    injection P as <-. destruct I as [H1 H2 H3 H4 H5].
    constructor; cbn; auto.
    + rewrite map_delete_keys. now apply NoDup_filter.
    + unfold map_delete. apply Forall_forall. intros x Hx.
      apply filter_In in Hx as [Hx _].
      rewrite Forall_forall in H5. auto.
  - (* start *)
    rewrite start_spec in P.
    destruct (isRunning (state (sched s))) eqn:R.
    + now injection P as <-.
    + cbn zeta in P.
      match type of P with
      | context [runTasks fuel ?x] => assert (I1 : Inv x)
      end.
      { destruct I as [H1 H2 H3 H4 H5]. rewrite (H1 R) in H2.
        constructor; cbn; auto; [discriminate | now rewrite H2]. }
      destruct (truthy _).
      * eapply Inv_runTasks; eauto.
      * now injection P as <-.
  - (* stop *)
    rewrite stop_spec in P. injection P as <-. now apply Inv_afterStop.
  - (* runNow *)
    eapply Inv_runTasks; eauto.
  - (* timer *)
    rewrite runTasksCaught_eq in P. eapply Inv_runTasks; eauto.
  - (* clearHistory *)
    injection P as <-. destruct I as [H1 H2 H3 H4 H5].
    constructor; cbn; auto. lia.
  - injection P as <-. eapply Inv_same; [| | | | |exact I]; reflexivity.
  - injection P as <-. eapply Inv_same; [| | | | |exact I]; reflexivity.
  - (* enableTask *)
    injection P as <-. destruct I as [H1 H2 H3 H4 H5].
    constructor; cbn; auto.
    + now rewrite map_mutate_keys.
    + apply map_mutate_Forall; auto.
  - injection P as <-. destruct I as [H1 H2 H3 H4 H5].
    constructor; cbn; auto.
    + now rewrite map_mutate_keys.
    + apply map_mutate_Forall; auto.
  - injection P as <-. eapply Inv_same; [| | | | |exact I]; reflexivity.
Qed.

Lemma Inv_steps fuel s ops s' : Inv s -> steps fuel s ops s' -> Inv s'.
Proof.
  intros I H. induction H as [|s op s1 ops s2 H1 _ IH]; [assumption|].
  apply IH. eapply Inv_step; eauto.
Qed.

Lemma Inv_reachable fuel s : reachable fuel s -> Inv s.
Proof.
  intros (cfg & w & ops & H). eapply Inv_steps; [apply Inv_init | exact H].
Qed.
End InvariantFacts.


Section CycleTheorems.
Context {Env : Type}.
Implicit Types (s : @Sys Env) (task : @ScheduledTask Env).

Lemma callHandlers_fst hs e : map fst (callHandlers hs e) = map hid hs.
Proof. induction hs as [|h hs IH]; cbn; [reflexivity | now rewrite IH]. Qed.

(** C10. registerTask stores the task and emits, at registration time and
    to every subscriber, a task_start event whose payload holds the task id
    and no task name; the task body is not run: the world and the history
    are as before. *)
Theorem registerTask_emits_task_start :
  forall task s,
    let e := {| type := ev_task_start; timestamp := now (world s);
                data := TaskData (id task) None |} in
    registerTask task s =
      (Normal tt,
       {| sched := set_tasks (map_set (id task) task) (sched s);
          world := world s; timers := timers s; nextTimer := nextTimer s;
          emitted := emitted s ++ [emission s e] |}) /\
    map fst (deliveries (emission s e)) = map hid (eventHandlers (sched s)).
Proof.
  intros task s e. split; [reflexivity|]. apply callHandlers_fst.
Qed.

(** C4. When respectMarketHours is set, a marketHours configuration is
    present and the oracle answers closed at the start of the cycle, the
    cycle (runNow or a timer tick) emits the one event market_closed with
    that status and returns; totalRuns, consecutiveErrors and history are
    as before, and no task ran: the world and the tasks are untouched. *)
Theorem market_closed_cycle_skips :
  forall fuel s mh st,
    respectMarketHours (config (sched s)) = true ->
    marketHours (config (sched s)) = Some mh ->
    isMarketOpen fuel mh (now (world s)) = Some st ->
    isOpen st = false ->
    exists s',
      runNow fuel s = (Normal tt, s') /\
      perform fuel OpTick s = (Normal tt, s') /\
      emitted s' = emitted s ++
        [emission s {| type := ev_market_closed; timestamp := now (world s);
                       data := StatusData st |}] /\
      totalRuns (getState s') = totalRuns (getState s) /\
      consecutiveErrors (getState s') = consecutiveErrors (getState s) /\
      history (getState s') = history (getState s) /\
      world s' = world s /\
      tasks (sched s') = tasks (sched s).
Proof.
  intros fuel s mh st Hr Hm Ho Hc. eexists.
  cbn [perform]. rewrite runTasksCaught_eq. unfold runNow.
  rewrite runTasks_unfold. unfold gate. rewrite Hm, Hr, Ho, Hc. cbn [negb].
  rewrite emit_spec. repeat split.
Qed.

Lemma oracleTotal_query fuel s mh t :
  oracleTotal fuel (config (sched s)) ->
  marketHours (config (sched s)) = Some mh ->
  respectMarketHours (config (sched s)) = true ->
  exists st, isMarketOpen fuel mh t = Some st.
Proof.
  unfold oracleTotal. intros H Hm Hr. rewrite Hm in H.
  destruct (H Hr) as [Hok Hf]. now apply isMarketOpen_total.
Qed.

(** With a total oracle the loop returns. *)
Lemma taskLoop_total fuel todo :
  forall results hasError s,
    oracleTotal fuel (config (sched s)) ->
    exists r s', taskLoop fuel todo results hasError s = (Normal r, s').
Proof.
  induction todo as [|task rest IH]; intros results hasError s Ht.
  - cbn [taskLoop]. unfold ret. eauto.
  - rewrite taskLoop_cons.
    assert (Step : forall s1, sched s1 = sched s ->
              forall rs he, exists r s',
                taskLoop fuel rest rs he s1 = (Normal r, s')).
    { intros s1 E rs he. apply IH. now rewrite E. }
    assert (Run : exists r s',
              match executeTask task s with
              | (Normal result, s1) =>
                  taskLoop fuel rest (results ++ [result])
                    (if negb (success result) then true else hasError) s1
              | (Throw v, s1) => (Throw v, s1)
              | (Diverge, s1) => (Diverge, s1)
              end = (Normal r, s')).
    { pose proof (executeTask_spec task s) as X.
      destruct (execute task (world s)) as [out w]. cbn zeta in X.
      rewrite X. apply Step. reflexivity. }
    destruct (marketHours (config (sched s))) as [mh|] eqn:Hm; [|exact Run].
    destruct (truthy (requiresMarketOpen task)); cbn [andb]; [|exact Run].
    destruct (respectMarketHours (config (sched s))) eqn:Hr; [|exact Run].
    destruct (oracleTotal_query fuel s mh (now (world s)) Ht Hm Hr) as [st ->].
    cbn [option_map]. destruct (isOpen st); cbn [negb]; [exact Run|].
    now apply Step.
Qed.

Lemma runTasks_total fuel s :
  oracleTotal fuel (config (sched s)) ->
  exists s', runTasks fuel s = (Normal tt, s').
Proof.
  intros Ht. rewrite runTasks_unfold.
  assert (R : exists s', runEnabledTasks fuel (cycleStart s) = (Normal tt, s')).
  { rewrite runEnabledTasks_unfold.
    destruct (enabledTasks (sched (cycleStart s))) as [|t ts]; [eauto|].
    destruct (taskLoop_total fuel (t :: ts) [] false (cycleStart s) Ht)
      as (r & s1 & ->). eauto. }
  unfold gate.
  destruct (marketHours (config (sched s))) as [mh|] eqn:Hm; [|exact R].
  destruct (respectMarketHours (config (sched s))) eqn:Hr; [|exact R].
  destruct (oracleTotal_query fuel s mh (now (world s)) Ht Hm Hr) as [st ->].
  destruct (isOpen st); cbn [negb]; [exact R|].
  rewrite emit_spec. eauto.
Qed.

End CycleTheorems.


Section CounterTheorems.
Context {Env : Type}.
Implicit Types (s : @Sys Env) (task : @ScheduledTask Env).

Lemma afterStop_counters s :
  totalRuns (getState (afterStop s)) = totalRuns (getState s) /\
  consecutiveErrors (getState (afterStop s)) = consecutiveErrors (getState s) /\
  history (getState (afterStop s)) = history (getState s) /\
  config (sched (afterStop s)) = config (sched s) /\
  eventHandlers (sched (afterStop s)) = eventHandlers (sched s).
Proof. unfold afterStop. destruct (isRunning _); repeat split. Qed.

Lemma afterUpdate_counters results hasError s :
  totalRuns (getState (afterUpdate results hasError s))
    = totalRuns (getState s) + 1 /\
  consecutiveErrors (getState (afterUpdate results hasError s))
    = (if hasError then consecutiveErrors (getState s) + 1 else 0) /\
  history (getState (afterUpdate results hasError s))
    = history (updatedState results hasError (getState s)).
Proof.
  unfold afterUpdate.
  set (s1 := set_sched (set_state (updatedState results hasError)) s).
  destruct (_ >=? _); [|repeat split].
  destruct (afterStop_counters s1) as (E1 & E2 & E3 & _).
  unfold getState in *. cbn [addEmission sched].
  rewrite E1, E2, E3. repeat split.
Qed.

Lemma slice_last_short {A} n (l : list A) :
  (List.length l <= n)%nat -> slice_last n l = l.
Proof.
  intros H. unfold slice_last.
  replace (List.length l - n)%nat with O by lia. reflexivity.
Qed.

Lemma updatedState_history_eq results hasError st :
  history (updatedState results hasError st)
    = slice_last 100 (history st ++ results).
Proof.
  unfold updatedState. cbn [history].
  destruct (Nat.ltb_spec 100 (List.length (history st ++ results)));
    [reflexivity | now rewrite slice_last_short].
Qed.

(** What a completed cycle does to the counters and to the history. *)
Lemma CycleRun_counters fuel s s' :
  CycleRun fuel s s' ->
  (totalRuns (getState s') = totalRuns (getState s) /\
   consecutiveErrors (getState s') = consecutiveErrors (getState s) /\
   history (getState s') = history (getState s))
  \/
  (exists results hasError s1,
     taskLoop fuel (enabledTasks (sched s)) [] false (cycleStart s)
       = (Normal (results, hasError), s1) /\
     updateState results hasError s1 = (Normal tt, s') /\
     totalRuns (getState s') = totalRuns (getState s) + 1 /\
     consecutiveErrors (getState s') =
       (if forallb success results then 0
        else consecutiveErrors (getState s) + 1) /\
     history (getState s') =
       slice_last 100 (history (getState s) ++ results)).
Proof.
  intros [mh st G O C | E | results hasError s1 s2 N L U].
  - left. repeat split.
  - left. repeat split.
  - right. exists results, hasError, s1.
    destruct (taskLoop_spec _ _ _ _ _ _ _ L) as (_ & Hs & _ & _ & Hr).
    destruct (Hr _ _ eq_refl) as (ex & new & evs & E1 & _ & _ & E2 & _).
    cbn in E1, E2. subst results hasError.
    pose proof U as U'. rewrite updateState_spec in U'. injection U' as <-.
    destruct (afterUpdate_counters new (negb (forallb success new)) s1)
      as (T & C & H).
    unfold getState in *. rewrite T, C, H, Hs, updatedState_history_eq.
    repeat split; try assumption.
    destruct (forallb success new); reflexivity.
Qed.


(** The counters after one operation. *)
Lemma step_counters fuel s op s' :
  step fuel s op s' ->
  countersUnchanged s s' \/
  exists results,
    countedCycle fuel s op s' results /\
    totalRuns (getState s') = totalRuns (getState s) + 1 /\
    consecutiveErrors (getState s') =
      (if forallb success results then 0
       else consecutiveErrors (getState s) + 1).
Proof.
  intros H. inversion H as [s0 op0 s1 En P]; subst s0 op0 s1. clear H.
  assert (Cycle : forall sa,
            (op = OpRunNow \/ op = OpTick \/ op = OpStart) ->
            tasks (sched sa) = tasks (sched s) ->
            totalRuns (getState sa) = totalRuns (getState s) ->
            consecutiveErrors (getState sa) = consecutiveErrors (getState s) ->
            runTasks fuel sa = (Normal tt, s') ->
            countersUnchanged s s' \/
            exists results,
              countedCycle fuel s op s' results /\
              totalRuns (getState s') = totalRuns (getState s) + 1 /\
              consecutiveErrors (getState s') =
                (if forallb success results then 0
                 else consecutiveErrors (getState s) + 1)).
  { intros sa Ho Et ET EC R. apply runTasks_spec in R as (_ & R).
    destruct (CycleRun_counters _ _ _ (R eq_refl))
      as [(T & C & _) | (results & he & s1 & L & U & T & C & _)].
    - left. split; unfold getState in *; congruence.
    - right. exists results. rewrite <- ET, <- EC.
      split; [|split; assumption].
      exists (cycleStart sa), he, s1. repeat split; assumption. }
  destruct op; cbn [perform] in P;
    try (injection P as <-; left; split; reflexivity).
  - rewrite start_spec in P.
    destruct (isRunning (state (sched s))).
    + injection P as <-. left. split; reflexivity.
    + cbn zeta in P. destruct (truthy _).
      * refine (Cycle _ _ _ _ _ P); auto.
      * injection P as <-. left. split; reflexivity.
  - rewrite stop_spec in P. injection P as <-. left.
    destruct (afterStop_counters s) as (T & C & _). split; assumption.
  - refine (Cycle s _ _ _ _ P); auto.
  - rewrite runTasksCaught_eq in P. refine (Cycle s _ _ _ _ P); auto.
Qed.

End CounterTheorems.


Section CircuitBreaker.
Context {Env : Type}.
Implicit Types (s : @Sys Env) (task : @ScheduledTask Env).

Lemma afterStop_timers_empty s : timers s = [] -> timers (afterStop s) = [].
Proof.
  intros E. unfold afterStop. destruct (isRunning _); [|assumption].
  cbn. rewrite E. destruct (intervalId (sched s)); reflexivity.
Qed.

Lemma afterUpdate_timers_empty results hasError s :
  timers s = [] -> timers (afterUpdate results hasError s) = [].
Proof.
  intros E. unfold afterUpdate. destruct (_ >=? _); [|assumption].
  cbn [addEmission timers]. now apply afterStop_timers_empty.
Qed.

Lemma CycleRun_timers_empty fuel s s' :
  CycleRun fuel s s' -> timers s = [] -> timers s' = [].
Proof.
  intros [mh st G O C | E | results hasError s1 s2 N L U] T.
  - assumption.
  - assumption.
  - destruct (taskLoop_spec _ _ _ _ _ _ _ L) as (_ & _ & Ht & _).
    rewrite updateState_spec in U. injection U as <-.
    apply afterUpdate_timers_empty. now rewrite Ht.
Qed.

(** Only [start] arms a timer. *)
Lemma step_timers_empty fuel s op s' :
  step fuel s op s' -> op <> OpStart -> timers s = [] -> timers s' = [].
Proof.
  intros H N T. inversion H as [s0 op0 s1 En P]; subst s0 op0 s1. clear H.
  destruct op; cbn [perform] in P; try congruence;
    try (injection P as <-; exact T).
  - rewrite stop_spec in P. injection P as <-.
    now apply afterStop_timers_empty.
  - apply runTasks_spec in P as (_ & P).
    eapply CycleRun_timers_empty; eauto.
  - cbn in En. rewrite T in En. discriminate.
Qed.

(** While no timer is armed, the timer does not fire before the next
    [start]. *)
Lemma no_tick_until_start fuel s ops s' :
  steps fuel s ops s' -> timers s = [] ->
  ~ In OpStart ops -> ~ In OpTick ops.
Proof.
  induction 1 as [|s op s1 ops s2 H1 _ IH]; intros T N; [intros []|].
  intros [->|Hin].
  - inversion H1 as [? ? ? En _]; subst. cbn in En. rewrite T in En.
    discriminate.
  - apply IH; [| |assumption].
    + eapply step_timers_empty; eauto. intros ->. apply N. now left.
    + intros Hs. apply N. now right.
Qed.

Lemma taskEmission_not_error (ts : list (@ScheduledTask Env)) e :
  taskEmission ts e -> isErrorEvent e = false.
Proof.
  intros ([H|[H|H]] & _); unfold isErrorEvent; now rewrite H.
Qed.

Lemma filter_none {A} (f : A -> bool) l :
  Forall (fun x => f x = false) l -> filter f l = [].
Proof.
  induction 1 as [|x l Hx _ IH]; cbn; [reflexivity | now rewrite Hx].
Qed.

(** A cycle that reaches its state update with the threshold met stops
    the scheduler and emits one error event. *)
Lemma breaker_cycle fuel s s' :
  Inv s ->
  runTasks fuel s = (Normal tt, s') ->
  totalRuns (getState s') = totalRuns (getState s) + 1 ->
  consecutiveErrors (getState s')
    >= maxConsecutiveErrors (config (sched s)) ?? 10 ->
  isRunning (getState s') = false /\
  intervalId (sched s') = None /\
  timers s' = [] /\
  exists evs,
    emitted s' = emitted s ++ evs /\
    filter isErrorEvent evs =
      [emission s {| type := ev_error; timestamp := now (world s');
                     data := ReasonData "max_consecutive_errors" |}].
Proof.
  intros R P HT HC.
  apply runTasks_spec in P as (_ & P). specialize (P eq_refl).
  destruct P as [mh st G O C | E | results hasError s1 s2 N L U].
  - unfold getState in HT. cbn in HT. lia.
  - unfold getState in HT. cbn in HT. lia.
  - destruct (taskLoop_spec _ _ _ _ _ _ _ L)
      as (_ & Hs & Ht & _ & Hr).
    destruct (Hr _ _ eq_refl) as (ex & new & evs & _ & _ & _ & _ & Em & Hev).
    cbn [cycleStart set_sched emitted] in Em.
    assert (I1 : Inv s1).
    { eapply Inv_same; [| | | | |exact R]; rewrite ?Hs, ?Ht; reflexivity. }
    rewrite updateState_spec in U. injection U as <-.
    destruct (afterUpdate_counters results hasError s1) as (_ & C & _).
    unfold afterUpdate in *.
    set (s1' := set_sched (set_state (updatedState results hasError)) s1) in *.
    assert (I1' : Inv s1').
    { destruct I1 as [H1 H2 H3 H4 H5].
      constructor; cbn -[updatedState]; auto. apply updatedState_history. }
    replace (config (sched s1)) with (config (sched s)) in *
      by (rewrite Hs; reflexivity).
    destruct (consecutiveErrors (state (sched s1')) >=?
              maxConsecutiveErrors (config (sched s)) ?? 10) eqn:B.
    2:{ exfalso. rewrite Z.geb_leb in B. apply Z.leb_gt in B.
        unfold getState in HC. lia. }
    destruct (afterStop_stopped s1' I1') as (S1 & S2 & S3).
    cbn [addEmission sched timers getState world emitted].
    repeat split; try assumption.
    destruct (afterStop_counters s1') as (_ & _ & _ & _ & Eh).
    assert (EH : emission (afterStop s1') = emission s).
    { unfold emission. rewrite Eh. cbn [s1' set_sched sched set_state
        eventHandlers]. rewrite Hs. reflexivity. }
    assert (EW : now (world (afterStop s1')) = now (world s1))
      by (rewrite afterStop_world; reflexivity).
    rewrite EH, EW.
    exists (evs ++ (if isRunning (state (sched s1'))
                    then [emission s {| type := ev_stop;
                                        timestamp := now (world s1);
                                        data := NoData |}]
                    else []) ++
            [emission s {| type := ev_error;
                           timestamp := now (world s1);
                           data := ReasonData "max_consecutive_errors" |}]).
    split.
    + unfold afterStop.
      assert (EH' : emission s1' = emission s).
      { unfold emission. cbn [s1' set_sched sched set_state eventHandlers].
        rewrite Hs. reflexivity. }
      destruct (isRunning (state (sched s1')));
        cbn [emitted set_sched s1']; rewrite ?EH', Em, <- !app_assoc;
        reflexivity.
    + rewrite !filter_app, (filter_none isErrorEvent evs).
      * destruct (isRunning (state (sched s1'))); reflexivity.
      * eapply Forall_impl; [|exact Hev].
        intros e. apply taskEmission_not_error.
Qed.

End CircuitBreaker.


Section SubseqFacts.
Context {A : Type}.
Implicit Types (l : list A).

Lemma Subseq_In l1 l2 x : Subseq l1 l2 -> In x l1 -> In x l2.
Proof.
  induction 1 as [|y l1 l2 _ IH|y l1 l2 _ IH]; cbn; intuition.
Qed.

Lemma Subseq_trans l1 l2 l3 : Subseq l1 l2 -> Subseq l2 l3 -> Subseq l1 l3.
Proof.
  intros H12 H23. revert l1 H12.
  induction H23 as [|y l2 l3 _ IH|y l2 l3 _ IH]; intros l1 H12.
  - assumption.
  - constructor. now apply IH.
  - inversion H12; subst; constructor; now apply IH.
Qed.

Lemma Subseq_filter_self (f : A -> bool) l : Subseq (filter f l) l.
Proof.
  induction l as [|x l IH]; cbn; [constructor|].
  destruct (f x); constructor; assumption.
Qed.

Lemma Subseq_filter (f : A -> bool) l1 l2 :
  Subseq l1 l2 -> Subseq (filter f l1) (filter f l2).
Proof.
  induction 1 as [|y l1 l2 _ IH|y l1 l2 _ IH]; cbn.
  - constructor.
  - destruct (f y); [constructor|]; assumption.
  - destruct (f y); [constructor|]; assumption.
Qed.

Lemma Subseq_StronglySorted (R : A -> A -> Prop) l1 l2 :
  Subseq l1 l2 -> StronglySorted R l2 -> StronglySorted R l1.
Proof.
  induction 1 as [|y l1 l2 Hs IH|y l1 l2 Hs IH]; intros S.
  - constructor.
  - inversion S; subst. auto.
  - inversion S as [|? ? S' F]; subst. constructor; [auto|].
    rewrite Forall_forall in *. intros x Hx. apply F.
    eapply Subseq_In; eauto.
Qed.
End SubseqFacts.

Section SortFacts.
Context {Env : Type}.
Implicit Types (t x y : @ScheduledTask Env) (l : list (@ScheduledTask Env)).

Variable cmp : @ScheduledTask Env -> @ScheduledTask Env -> Z.
Hypothesis cmp_prio : forall x y, cmp x y = prio y - prio x.

Local Abbreviation descending := (fun x y => prio x >= prio y).

Lemma sort_insert_In x y l : In y (sort_insert cmp x l) <-> y = x \/ In y l.
Proof.
  induction l as [|z l IH]; cbn; [intuition|].
  destruct (cmp x z <=? 0); cbn; [intuition|]. rewrite IH. intuition.
Qed.

Lemma sort_In y l : In y (sort cmp l) <-> In y l.
Proof.
  unfold sort. induction l as [|z l IH]; cbn; [tauto|].
  rewrite sort_insert_In, IH. intuition.
Qed.

Lemma sort_insert_sorted x l :
  StronglySorted descending l -> StronglySorted descending (sort_insert cmp x l).
Proof.
  induction 1 as [|z l S IH F]; cbn.
  - repeat constructor.
  - destruct (Z.leb_spec (cmp x z) 0) as [L|L]; rewrite cmp_prio in L.
    + constructor; [now constructor|].
      constructor; [cbv beta; lia|].
      eapply Forall_impl; [|exact F]. cbv beta. intros; lia.
    + constructor; [assumption|].
      apply Forall_forall. intros y Hy.
      apply sort_insert_In in Hy as [->|Hy]; [cbv beta; lia|].
      rewrite Forall_forall in F. auto.
Qed.

Lemma sort_sorted l : StronglySorted descending (sort cmp l).
Proof.
  unfold sort. induction l as [|z l IH]; cbn; [constructor|].
  now apply sort_insert_sorted.
Qed.

(** Stability: the tasks of one priority keep their order. *)
Lemma sort_insert_stable p x l :
  filter (fun t => prio t =? p) (sort_insert cmp x l) =
    if prio x =? p then x :: filter (fun t => prio t =? p) l
    else filter (fun t => prio t =? p) l.
Proof.
  induction l as [|z l IH]; cbn; [reflexivity|].
  destruct (Z.leb_spec (cmp x z) 0) as [L|L]; rewrite cmp_prio in L; cbn.
  - reflexivity.
  - rewrite IH.
    destruct (Z.eqb_spec (prio x) p) as [Ex|Ex];
      destruct (Z.eqb_spec (prio z) p) as [Ez|Ez]; try reflexivity. lia.
Qed.

Lemma sort_stable p l :
  filter (fun t => prio t =? p) (sort cmp l) = filter (fun t => prio t =? p) l.
Proof.
  unfold sort. induction l as [|z l IH]; cbn; [reflexivity|].
  rewrite sort_insert_stable, IH. reflexivity.
Qed.
End SortFacts.

Section PriorityTheorem.
Context {Env : Type}.
Implicit Types (s : @Sys Env) (task : @ScheduledTask Env).

End PriorityTheorem.


Section OrchestratorFacts.
Context {Env : Type}.
Implicit Types (s : @Sys Env) (task : @ScheduledTask Env)
  (o : @TradingOrchestrator Env) (m : list (string * @ScheduledTask Env)).

Lemma map_get_In k v m : map_get k m = Some v -> In (k, v) m.
Proof.
  induction m as [|[k' v'] m IH]; cbn; [discriminate|].
  destruct (String.eqb_spec k' k) as [->|N].
  - intros [= ->]. now left.
  - intros H. right. auto.
Qed.

Lemma In_map_get k v m : NoDup (map fst m) -> In (k, v) m -> map_get k m = Some v.
Proof.
  induction m as [|[k' v'] m IH]; cbn; intros D H; [destruct H|].
  inversion D as [|? ? Hn Hd]; subst.
  destruct H as [[= -> ->]|H].
  - now rewrite String.eqb_refl.
  - destruct (String.eqb_spec k' k) as [->|N]; [|auto].
    exfalso. apply Hn. change k with (fst (k, v)). now apply in_map.
Qed.

Lemma map_get_mutate k f m v :
  map_get k m = Some v -> map_get k (map_mutate k f m) = Some (f v).
Proof.
  induction m as [|[k' v'] m IH]; cbn; [discriminate|].
  destruct (String.eqb_spec k' k) as [->|N]; cbn.
  - rewrite String.eqb_refl. now intros [= ->].
  - destruct (String.eqb_spec k' k); [contradiction | exact IH].
Qed.

Lemma steps_snoc fuel s ops s1 op s2 :
  steps fuel s ops s1 -> step fuel s1 op s2 -> steps fuel s (ops ++ [op]) s2.
Proof.
  induction 1 as [|s op' sa ops sb H1 _ IH]; intros H; cbn.
  - econstructor; [exact H | constructor].
  - econstructor; [exact H1 | auto].
Qed.

Lemma reachable_step fuel s op s' :
  reachable fuel s -> step fuel s op s' -> reachable fuel s'.
Proof.
  intros (cfg & w & ops & H) Hs. exists cfg, w, (ops ++ [op]).
  eapply steps_snoc; eauto.
Qed.

Lemma reachable_register fuel s task :
  reachable fuel s -> reachable fuel (snd (registerTask task s)).
Proof.
  intros R. apply (reachable_step fuel s (OpRegisterTask task)); [exact R|].
  constructor; reflexivity.
Qed.

Lemma onScheduler_register task o :
  onScheduler (registerTask task) o =
    (Normal tt,
     {| oconfig := oconfig o; osys := snd (registerTask task (osys o)) |}).
Proof. reflexivity. Qed.

Lemma reachable_new fuel cfg (w : @World Env) :
  reachable fuel (osys (newTradingOrchestrator cfg w)).
Proof.
  unfold newTradingOrchestrator.
  set (sch := match marketHours (schedule cfg) with
              | Some _ => schedule cfg
              | None => set_marketHours getUSMarketHoursConfig (schedule cfg)
              end).
  assert (R0 : reachable fuel (initSys sch w))
    by (exists sch, w, []; constructor).
  clearbody sch. revert R0. generalize (initSys sch w). intros s0 R0.
  unfold registerDefaultTasks, bind, get.
  cbn [oconfig enablePositionMonitoring enableEntryScanning
       enableRollManagement dryRun].
  destruct (enablePositionMonitoring cfg), (enableEntryScanning cfg),
    (enableRollManagement cfg);
    rewrite ?onScheduler_register; cbn [ret osys snd oconfig];
    rewrite ?onScheduler_register; cbn [ret osys snd oconfig];
    rewrite ?onScheduler_register; cbn [ret osys snd oconfig];
    repeat apply reachable_register; exact R0.
Qed.

Lemma oreachable_reachable fuel o : oreachable fuel o -> reachable fuel (osys o).
Proof.
  intros (cfg & w & ops & H).
  pose proof (reachable_new fuel cfg w) as R.
  induction H as [|o op o1 ops o2 En P _ IH]; [assumption|].
  apply IH. destruct op as [op|feature b].
  - cbn [operform] in P. unfold onScheduler in P.
    destruct (perform fuel op (osys o)) as [c s1] eqn:E.
    injection P as -> <-. cbn [osys].
    eapply reachable_step; [exact R|]. constructor; [exact En | exact E].
  - cbn [operform] in P. destruct b; injection P as <-; cbn [osys].
    + apply (reachable_step fuel _ (OpEnableTask (taskMap feature)) _ R).
      constructor; reflexivity.
    + apply (reachable_step fuel _ (OpDisableTask (taskMap feature)) _ R).
      constructor; reflexivity.
Qed.

(** C9. For each of the three feature flags whose task is in the registry
    of a reachable orchestrator: setFeatureEnabled(flag, false) sets the
    flag to false and disables the task in place, without unregistering it
    and without emitting anything, so that the next cycle does not select
    it and produces no result for it; setFeatureEnabled(flag, true)
    afterwards sets the flag to true and enables the same registry entry
    again, without a registration, so that the next cycle selects it. *)
Theorem feature_toggle_disables_and_restores :
  forall fuel o feature task,
    oreachable fuel o ->
    map_get (taskMap feature) (tasks (sched (osys o))) = Some task ->
    exists o1 o2,
      setFeatureEnabled feature false o = (Normal tt, o1) /\
      setFeatureEnabled feature true o1 = (Normal tt, o2) /\
      (get_feature feature (oconfig o1) = false /\
       map_get (taskMap feature) (tasks (sched (osys o1)))
         = Some (set_enabled false task) /\
       map fst (tasks (sched (osys o1))) = map fst (tasks (sched (osys o))) /\
       emitted (osys o1) = emitted (osys o) /\
       (forall t, In t (enabledTasks (sched (osys o1))) ->
                  id t <> taskMap feature) /\
       (forall s results hasError s1,
          tasks (sched s) = tasks (sched (osys o1)) ->
          taskLoop fuel (enabledTasks (sched s)) [] false s
            = (Normal (results, hasError), s1) ->
          Forall (fun r => taskId r <> taskMap feature) results)) /\
      (get_feature feature (oconfig o2) = true /\
       map_get (taskMap feature) (tasks (sched (osys o2)))
         = Some (set_enabled true task) /\
       map fst (tasks (sched (osys o2))) = map fst (tasks (sched (osys o))) /\
       emitted (osys o2) = emitted (osys o) /\
       In (set_enabled true task) (enabledTasks (sched (osys o2)))).
Proof.
  intros fuel o feature task R G.
  apply oreachable_reachable, Inv_reachable in R.
  set (tid := taskMap feature) in *.
  set (m := tasks (sched (osys o))) in *.
  set (m1 := map_mutate tid (set_enabled false) m).
  set (m2 := map_mutate tid (set_enabled true) m1).
  pose proof (inv_keys _ R) as D. pose proof (inv_ids _ R) as I.
  fold m in D, I.
  assert (D1 : NoDup (map fst m1)) by (subst m1; now rewrite map_mutate_keys).
  assert (I1 : Forall (fun kv => fst kv = id (snd kv)) m1)
    by (subst m1; apply map_mutate_Forall; auto).
  assert (G1 : map_get tid m1 = Some (set_enabled false task))
    by (subst m1; now apply map_get_mutate).
  assert (Sel : forall t, In t (sort (fun a b => (priority b ?? 0) - (priority a ?? 0))
                                  (filter (fun x => enabled x) (map_values m1))) ->
                          id t <> tid).
  { intros t Ht Eid.
    apply (proj1 (sort_In _ _ _)) in Ht.
    apply filter_In in Ht as [Hin He].
    unfold map_values in Hin. apply in_map_iff in Hin as ([k v] & Ev & Hin).
    cbn in Ev. subst v.
    rewrite Forall_forall in I1. pose proof (I1 _ Hin) as Ek. cbn in Ek.
    rewrite Eid in Ek. subst k.
    apply (In_map_get _ _ _ D1) in Hin. rewrite G1 in Hin.
    injection Hin as <-. discriminate. }
  exists {| oconfig := set_feature feature false (oconfig o);
            osys := set_sched (set_tasks (map_mutate tid (set_enabled false)))
                      (osys o) |}.
  exists {| oconfig := set_feature feature true
                         (set_feature feature false (oconfig o));
            osys := set_sched (set_tasks (map_mutate tid (set_enabled true)))
                      (set_sched
                         (set_tasks (map_mutate tid (set_enabled false)))
                         (osys o)) |}.
  split; [reflexivity|].
  split; [reflexivity|].
  split; [|split; [|split; [|split; [|split]]]].
  - cbn [oconfig osys sched set_sched set_tasks tasks emitted].
    repeat split.
    + destruct feature; reflexivity.
    + exact G1.
    + apply map_mutate_keys.
    + exact Sel.
    + intros s results hasError s1 Et L.
      destruct (taskLoop_spec _ _ _ _ _ _ _ L) as (_ & _ & _ & _ & Hr).
      destruct (Hr _ _ eq_refl) as (ex & new & evs & E & Hsub & Hf & _).
      cbn in E. subst new.
      assert (Hex : Forall (fun t => id t <> tid) ex).
      { apply Forall_forall. intros t Ht.
        apply (Subseq_In _ _ _ Hsub) in Ht.
        unfold enabledTasks in Ht. rewrite Et in Ht.
        apply Sel; exact Ht. }
      clear - Hf Hex. induction Hf as [|r t rs ts [Er _] _ IH];
        constructor; inversion Hex; subst; [congruence | auto].
  - destruct feature; reflexivity.
  - exact (map_get_mutate tid (set_enabled true) m1 _ G1).
  - cbn [oconfig osys sched set_sched set_tasks tasks].
    rewrite !map_mutate_keys; reflexivity.
  - reflexivity.
  - assert (G2 : map_get tid m2 = Some (set_enabled true task))
      by (subst m2; exact (map_get_mutate tid (set_enabled true) m1 _ G1)).
    assert (H2 : In (set_enabled true task)
               (sort (fun a b => (priority b ?? 0) - (priority a ?? 0))
                  (filter (fun x => enabled x) (map_values m2)))).
    { apply sort_In. apply filter_In. split; [|reflexivity].
      apply map_get_In in G2. unfold map_values.
      change (set_enabled true task) with (snd (tid, set_enabled true task)).
      now apply in_map. }
    exact H2.
Qed.
End OrchestratorFacts.


Lemma steps_runOps {Env : Type} fuel ops : forall s : @Sys Env,
  opsComplete fuel ops s = true -> steps fuel s ops (runOps fuel ops s).
Proof.
  induction ops as [|op ops IH]; intros s H; cbn in *; [constructor|].
  apply andb_true_iff in H as [H H3]. apply andb_true_iff in H as [H1 H2].
  econstructor; [|apply IH; exact H3].
  constructor; [exact H1|].
  destruct (perform fuel op s) as [[[]| |] s1]; cbn in *;
    [reflexivity | discriminate | discriminate].
Qed.

Lemma exArmed_reachable : reachable 17 exArmed.
Proof.
  exists (exConfig (Some 1)), exWorld,
    [OpOn exHandler; OpRegisterTask exFailing; OpStart].
  apply steps_runOps. vm_compute. reflexivity.
Defined.


Lemma market_closed_cycle_skips_witness :
  exists s',
    runNow 17 exClosed = (Normal tt, s') /\
    totalRuns (getState s') = totalRuns (getState exClosed) /\
    history (getState s') = history (getState exClosed) /\
    world s' = world exClosed.
Proof.
  destruct (market_closed_cycle_skips 17 exClosed getUSMarketHoursConfig
              {| isOpen := false;
                 currentTime := JS.mkDate 2025 1 1 10 0;
                 closedReason := Some "Market closed for holiday (2025-01-01)";
                 nextOpenTime := Some (JS.mkDate 2025 1 2 9 30);
                 nextCloseTime := None |})
    as (s' & H1 & _ & _ & H4 & _ & H6 & H7 & _).
  - reflexivity.
  - reflexivity.
  - vm_compute. reflexivity.
  - reflexivity.
  - exists s'. auto.
Defined.





Lemma feature_toggle_disables_and_restores_witness :
  exists o1 o2,
    setFeatureEnabled EnableEntryScanning false exOrchestrator
      = (Normal tt, o1) /\
    setFeatureEnabled EnableEntryScanning true o1 = (Normal tt, o2) /\
    get_feature EnableEntryScanning (oconfig o1) = false /\
    get_feature EnableEntryScanning (oconfig o2) = true /\
    In (set_enabled true (scanTask true)) (enabledTasks (sched (osys o2))).
Proof.
  destruct (feature_toggle_disables_and_restores 17 exOrchestrator
              EnableEntryScanning (scanTask true))
    as (o1 & o2 & H1 & H2 & (A1 & _) & (B1 & _ & _ & _ & B5)).
  - eexists _, exWorld, []. constructor.
  - reflexivity.
  - exists o1, o2. auto.
Defined.

(** ** The scenarios of the specification, run on the model *)

Example scenario_holiday :
  option_map (fun st => (isOpen st, closedReason st))
    (isMarketOpen 17 getUSMarketHoursConfig (JS.mkDate 2025 1 1 10 0))
  = Some (false, Some "Market closed for holiday (2025-01-01)").
Proof. vm_compute. reflexivity. Qed.

Example scenario_before_open :
  option_map (fun st => (isOpen st, closedReason st))
    (isMarketOpen 17 getUSMarketHoursConfig (JS.mkDate 2025 1 2 9 44))
  = Some (false, Some "Before market open (opens at 09:30)").
Proof. vm_compute. reflexivity. Qed.

Example scenario_open :
  option_map isOpen
    (isMarketOpen 17 getUSMarketHoursConfig (JS.mkDate 2025 1 2 9 45))
  = Some true.
Proof. vm_compute. reflexivity. Qed.

Example scenario_after_close :
  option_map (fun st => (isOpen st, closedReason st))
    (isMarketOpen 17 getUSMarketHoursConfig (JS.mkDate 2025 1 2 15 45))
  = Some (false, Some "After market close (closed at 16:00)").
Proof. vm_compute. reflexivity. Qed.

Example scenario_weekend :
  option_map (fun st => (isOpen st, closedReason st, nextOpenTime st))
    (isMarketOpen 17 getUSMarketHoursConfig (JS.mkDate 2025 1 18 12 0))
  = Some (false, Some "Market closed on Saturday",
          Some (JS.mkDate 2025 1 21 9 30)).
Proof. vm_compute. reflexivity. Qed.

Example scenario_priority_order :
  let s := runOps 17
             [OpRegisterTask (exTask "B" (Some 50) Resolved);
              OpRegisterTask (exTask "A" (Some 100) Resolved);
              OpRunNow]
             (initSys (exConfig None) exWorld) in
  totalRuns (getState s) = 1 /\
  consecutiveErrors (getState s) = 0 /\
  map taskId (history (getState s)) = ["A"; "B"].
Proof. vm_compute. repeat split. Qed.

Example scenario_two_failing_cycles :
  let s := runOps 17
             [OpOn exHandler; OpRegisterTask exFailing; OpStart;
              OpTick; OpTick]
             (initSys (exConfig (Some 2)) exWorld) in
  isRunning (getState s) = false /\
  timers s = [] /\
  consecutiveErrors (getState s) = 2 /\
  List.length (filter isErrorEvent (emitted s)) = 1%nat.
Proof. vm_compute. repeat split. Qed.

(** * Further properties of the code *)


Section OracleProperties.
Import JS.
Variable config : MarketHoursConfig.
Hypothesis calendar_ok : calendarOk config = true.

Lemma TimeWithinDay_setHours t h m :
  0 <= h < 24 -> 0 <= m < 60 ->
  TimeWithinDay (setHours t h m 0 0) = (h * 60 + m) * msPerMinute.
Proof.
  unfold setHours, TimeWithinDay, Day, msPerDay, msPerHour, msPerMinute.
  intros. JSFacts.zdiv.
Qed.

Lemma Day_lt_lt a b : Day a < Day b -> a < b.
Proof. unfold Day, msPerDay. intros. JSFacts.zdiv. Qed.

(** The next open time, with the time within its day. *)
Lemma getNextOpenTime_exact fuel from :
  (enoughFuel config <= fuel)%nat ->
  exists next,
    getNextOpenTime fuel config from = Some next /\
    Day from < Day next /\
    openDay config next = true /\
    isHoliday config (formatDate next) = false /\
    TimeWithinDay next = minutesOf (openTime config) * msPerMinute.
Proof.
  intros Hfuel.
  destruct (getNextOpenTime_total config fuel from calendar_ok Hfuel)
    as (next & Hn & Hd & Ho & Hh & _).
  exists next. repeat split; try assumption.
  apply calendarOk_parts in calendar_ok as (Hv & _ & Hdays).
  apply validTime_parse in Hv as (h & m & Hp & Hh' & Hm' & Hmin).
  unfold getNextOpenTime in Hn. rewrite Hp in Hn.
  destruct (skipClosedDays fuel config
              (setHours (nextDay from) h m 0 0)) as [t1|] eqn:E1;
    [|discriminate].
  apply skipClosedDays_some in E1 as (O1 & _ & T1).
  apply skipHolidays_some in Hn as (_ & _ & _ & T2); [|exact O1].
  rewrite T2, T1, Hmin. now apply TimeWithinDay_setHours.
Qed.

Lemma closedStatus_exact fuel t reason :
  (enoughFuel config <= fuel)%nat ->
  exists next,
    getNextOpenTime fuel config t = Some next /\
    closedStatus fuel config t reason =
      Some {| isOpen := false; currentTime := t; closedReason := Some reason;
              nextOpenTime := Some next; nextCloseTime := None |}.
Proof.
  intros Hfuel.
  destruct (getNextOpenTime_exact fuel t Hfuel) as (next & Hn & _).
  exists next. unfold closedStatus. rewrite Hn. auto.
Qed.

Lemma getDayName_In t : In (getDayName (getDay t)) dayNames.
Proof.
  pose proof (JSFacts.getDay_range t) as R. unfold getDayName.
  apply nth_In. change (List.length dayNames) with 7%nat. lia.
Qed.

(** The answer of the oracle in each of its five branches. *)
Lemma isMarketOpen_cases fuel t :
  (enoughFuel config <= fuel)%nat ->
  exists st,
    isMarketOpen fuel config t = Some st /\
    currentTime st = t /\
    ((openDay config t = false /\ isOpen st = false /\
      closedReason st
        = Some ("Market closed on " ++ getDayName (getDay t))%string)
     \/
     (openDay config t = true /\
      isHoliday config (formatDate t) = true /\ isOpen st = false /\
      closedReason st
        = Some ("Market closed for holiday (" ++ formatDate t ++ ")")%string)
     \/
     (openDay config t = true /\
      isHoliday config (formatDate t) = false /\
      minuteOfDay t < effectiveOpen config /\ isOpen st = false /\
      closedReason st
        = Some ("Before market open (opens at " ++ openTime config ++ ")")%string)
     \/
     (openDay config t = true /\
      isHoliday config (formatDate t) = false /\
      effectiveOpen config <= minuteOfDay t /\
      effectiveClose config <= minuteOfDay t /\ isOpen st = false /\
      closedReason st
        = Some ("After market close (closed at " ++ closeTime config ++ ")")%string)
     \/
     (openDay config t = true /\
      isHoliday config (formatDate t) = false /\
      effectiveOpen config <= minuteOfDay t < effectiveClose config /\
      isOpen st = true /\ closedReason st = None /\
      nextOpenTime st = None /\
      nextCloseTime st = getNextCloseTime config t)) /\
    (isOpen st = false ->
     nextCloseTime st = None /\
     nextOpenTime st = getNextOpenTime fuel config t).
Proof.
  intros Hfuel.
  destruct (openDay config t) eqn:Eo.
  2:{ unfold isMarketOpen. unfold openDay in Eo. rewrite Eo. cbn [negb].
      destruct (closedStatus_exact fuel t
                  ("Market closed on " ++ getDayName (getDay t))%string Hfuel)
        as (next & Hn & ->).
      eexists. split; [reflexivity|]. cbn. rewrite Hn. auto 10. }
  destruct (isHoliday config (formatDate t)) eqn:Eh.
  { unfold isMarketOpen. unfold openDay in Eo. rewrite Eo, Eh. cbn [negb].
    destruct (closedStatus_exact fuel t
                ("Market closed for holiday (" ++ formatDate t ++ ")")%string Hfuel)
      as (next & Hn & ->).
    eexists. split; [reflexivity|]. cbn. rewrite Hn. auto 10. }
  rewrite (isMarketOpen_open_day config t Eo Eh fuel calendar_ok).
  destruct (Z.ltb_spec (minuteOfDay t) (effectiveOpen config)) as [L|L].
  { destruct (closedStatus_exact fuel t
                ("Before market open (opens at " ++ openTime config ++ ")")%string
                Hfuel) as (next & Hn & ->).
    eexists. split; [reflexivity|]. cbn. rewrite Hn. auto 10. }
  rewrite Z.geb_leb.
  destruct (Z.leb_spec (effectiveClose config) (minuteOfDay t)) as [G|G].
  { destruct (closedStatus_exact fuel t
                ("After market close (closed at " ++ closeTime config ++ ")")%string
                Hfuel) as (next & Hn & ->).
    eexists. split; [reflexivity|]. cbn. rewrite Hn.
    split; [reflexivity|]. split; [|auto].
    right. right. right. left. auto 10. }
  pose proof calendar_ok as Hc.
  apply calendarOk_parts in Hc as (_ & Hc & _).
  apply validTime_parse in Hc as (h & m & Hp & _).
  unfold getNextCloseTime. rewrite Hp.
  eexists. split; [reflexivity|]. cbn.
  split; [reflexivity|]. split; [|discriminate].
  right. right. right. right. repeat split; assumption.
Qed.
End OracleProperties.

(** X1. For a usable calendar and enough fuel, getNextOpenTime returns a
    timestamp strictly after its argument, on a later day that is an open
    weekday and no holiday, at exactly the configured open time (seconds
    and milliseconds zero). *)
Theorem getNextOpenTime_later_open_day :
  forall config fuel from,
    calendarOk config = true ->
    (enoughFuel config <= fuel)%nat ->
    exists next,
      getNextOpenTime fuel config from = Some next /\
      from < next /\
      JS.Day from < JS.Day next /\
      JS.includesZ (openDays config) (JS.getDay next) = true /\
      isHoliday config (formatDate next) = false /\
      JS.TimeWithinDay next = minutesOf (openTime config) * JS.msPerMinute.
Proof.
  intros config fuel from Hok Hfuel.
  destruct (getNextOpenTime_exact config Hok fuel from Hfuel)
    as (next & H1 & H2 & H3 & H4 & H5).
  exists next. repeat split; try assumption. now apply Day_lt_lt.
Qed.

Lemma getNextOpenTime_later_open_day_witness :
  exists next,
    getNextOpenTime 17 getUSMarketHoursConfig (JS.mkDate 2025 1 17 18 0)
      = Some next /\
    JS.mkDate 2025 1 17 18 0 < next.
Proof.
  destruct (getNextOpenTime_later_open_day getUSMarketHoursConfig 17
              (JS.mkDate 2025 1 17 18 0)) as (next & H1 & H2 & _).
  - vm_compute. reflexivity.
  - vm_compute. lia.
  - exists next. auto.
Defined.

(** X2. For a usable calendar and enough fuel, isMarketOpen answers for
    every timestamp, echoes the timestamp, and answers open exactly when
    the weekday is an open day, the date is no holiday and the minute of
    the day lies in [open + grace, close - grace). An open answer carries
    the close time of the day and no reason; a closed answer carries a
    reason and the next open time. *)
Theorem isMarketOpen_open_iff :
  forall config fuel t,
    calendarOk config = true ->
    (enoughFuel config <= fuel)%nat ->
    exists st,
      isMarketOpen fuel config t = Some st /\
      currentTime st = t /\
      (isOpen st = true <->
         openDay config t = true /\
         isHoliday config (formatDate t) = false /\
         effectiveOpen config <= minuteOfDay t < effectiveClose config) /\
      (isOpen st = true ->
         closedReason st = None /\ nextOpenTime st = None /\
         nextCloseTime st = getNextCloseTime config t /\
         nextCloseTime st <> None) /\
      (isOpen st = false ->
         closedReason st <> None /\ nextCloseTime st = None /\
         nextOpenTime st = getNextOpenTime fuel config t /\
         nextOpenTime st <> None).
Proof.
  intros config fuel t Hok Hfuel.
  destruct (isMarketOpen_cases config Hok fuel t Hfuel)
    as (st & E & Hc & Hb & Hclosed).
  destruct (getNextOpenTime_exact config Hok fuel t Hfuel) as (nx & Hnx & _).
  exists st. split; [exact E|]. split; [exact Hc|].
  assert (Closed : forall r,
            isOpen st = false -> closedReason st = Some r ->
            (isOpen st = true ->
               closedReason st = None /\ nextOpenTime st = None /\
               nextCloseTime st = getNextCloseTime config t /\
               nextCloseTime st <> None) /\
            (isOpen st = false ->
               closedReason st <> None /\ nextCloseTime st = None /\
               nextOpenTime st = getNextOpenTime fuel config t /\
               nextOpenTime st <> None)).
  { intros r I R. split; [congruence|]. intros _.
    destruct (Hclosed I) as (C1 & C2).
    repeat split; [rewrite R; discriminate | exact C1 | exact C2 |].
    rewrite C2, Hnx. discriminate. }
  destruct Hb as [(O & I & R) | [(O & H & I & R) | [(O & H & L & I & R)
    | [(O & H & L & G & I & R) | (O & H & L & I & R & N & C)]]]].
  - split; [|exact (Closed _ I R)].
    split; [congruence | intros (A & _); congruence].
  - split; [|exact (Closed _ I R)].
    split; [congruence | intros (_ & A & _); congruence].
  - split; [|exact (Closed _ I R)].
    split; [congruence | intros (_ & _ & A); lia].
  - split; [|exact (Closed _ I R)].
    split; [congruence | intros (_ & _ & A); lia].
  - split; [split; auto|]. split; [|congruence]. intros _.
    repeat split; try assumption.
    rewrite C. unfold getNextCloseTime.
    apply calendarOk_parts in Hok as (_ & Hv & _).
    apply validTime_parse in Hv as (h & m & -> & _). discriminate.
Qed.

Lemma isMarketOpen_open_iff_witness :
  exists st,
    isMarketOpen 17 getUSMarketHoursConfig (JS.mkDate 2025 1 2 12 0) = Some st
    /\ currentTime st = JS.mkDate 2025 1 2 12 0.
Proof.
  destruct (isMarketOpen_open_iff getUSMarketHoursConfig 17
              (JS.mkDate 2025 1 2 12 0)) as (st & H1 & H2 & _).
  - vm_compute. reflexivity.
  - vm_compute. lia.
  - exists st. auto.
Defined.



(** X4. For a usable calendar and enough fuel, minutesUntilMarketOpen is a
    finite number, never Infinity and never negative: 0 when the market is
    open, else the whole minutes from the timestamp to the next open time
    that the oracle reports. *)
Theorem minutesUntilMarketOpen_finite :
  forall config fuel t,
    calendarOk config = true ->
    (enoughFuel config <= fuel)%nat ->
    exists st n,
      isMarketOpen fuel config t = Some st /\
      minutesUntilMarketOpen fuel config t = Some (Finite n) /\
      0 <= n /\
      (isOpen st = true -> n = 0) /\
      (isOpen st = false ->
       exists next,
         nextOpenTime st = Some next /\
         n * 60000 <= next - t < (n + 1) * 60000).
Proof.
  intros config fuel t Hok Hfuel.
  destruct (isMarketOpen_cases config Hok fuel t Hfuel)
    as (st & E & _ & _ & Hc).
  destruct (getNextOpenTime_exact config Hok fuel t Hfuel)
    as (next & Hn & Hd & _).
  apply Day_lt_lt in Hd.
  unfold minutesUntilMarketOpen. rewrite E. exists st.
  destruct (isOpen st) eqn:I.
  - exists 0. repeat split; try lia; try discriminate.
  - destruct (Hc eq_refl) as (_ & ->). rewrite Hn.
    exists (floorMinutes (JS.getTime next - JS.getTime t)).
    unfold floorMinutes, JS.getTime.
    repeat split; try discriminate.
    + JSFacts.zdiv.
    + intros _. exists next. split; [reflexivity|]. JSFacts.zdiv.
Qed.

Lemma minutesUntilMarketOpen_finite_witness :
  exists st n,
    isMarketOpen 17 getUSMarketHoursConfig (JS.mkDate 2025 1 2 18 0) = Some st
    /\ minutesUntilMarketOpen 17 getUSMarketHoursConfig
         (JS.mkDate 2025 1 2 18 0) = Some (Finite n)
    /\ 0 <= n.
Proof.
  destruct (minutesUntilMarketOpen_finite getUSMarketHoursConfig 17
              (JS.mkDate 2025 1 2 18 0)) as (st & n & H1 & H2 & H3 & _).
  - vm_compute. reflexivity.
  - vm_compute. lia.
  - exists st, n. auto.
Defined.

Section CloseMinutes.
Import JS.

Lemma minutes_to_close t h m :
  0 <= h < 24 -> 0 <= m < 60 ->
  let n := floorMinutes (getTime (setHours t h m 0 0) - getTime t) in
  (h * 60 + m) - minuteOfDay t - 1 <= n <= (h * 60 + m) - minuteOfDay t.
Proof.
  unfold floorMinutes, getTime, setHours, minuteOfDay, getHours, getMinutes,
    Day, msPerDay, msPerHour, msPerMinute.
  intros Hh Hm. cbv zeta. JSFacts.zdiv.
Qed.
End CloseMinutes.



(** X6. formatDate prints two timestamps alike exactly when they lie on
    the same calendar day, so that a holiday string matches every
    timestamp of its day and of no other day. *)
Theorem formatDate_same_day :
  forall a b, formatDate a = formatDate b <-> JS.Day a = JS.Day b.
Proof.
  intros a b. split; [apply StringFacts.formatDate_inj|].
  intros E. unfold formatDate, JS.getFullYear, JS.getMonth, JS.getDate.
  now rewrite E.
Qed.


Section RegistryProperties.
Context {Env : Type}.
Implicit Types (s : @Sys Env) (task : @ScheduledTask Env)
  (m : list (string * @ScheduledTask Env)).

Lemma map_get_set_same k v m : map_get k (map_set k v m) = Some v.
Proof.
  induction m as [|[k' v'] m IH]; cbn.
  - now rewrite String.eqb_refl.
  - destruct (String.eqb_spec k' k) as [->|N]; cbn.
    + now rewrite String.eqb_refl.
    + destruct (String.eqb_spec k' k); [contradiction | exact IH].
Qed.

Lemma map_get_set_other k k0 v m :
  k0 <> k -> map_get k0 (map_set k v m) = map_get k0 m.
Proof.
  intros N. induction m as [|[k' v'] m IH]; cbn.
  - destruct (String.eqb_spec k k0); [congruence | reflexivity].
  - destruct (String.eqb_spec k' k) as [->|N']; cbn.
    + destruct (String.eqb_spec k k0); [congruence | reflexivity].
    + destruct (String.eqb_spec k' k0); [reflexivity | exact IH].
Qed.

Lemma map_set_absent k v m :
  map_get k m = None -> map_set k v m = m ++ [(k, v)].
Proof.
  induction m as [|[k' v'] m IH]; cbn; [reflexivity|].
  destruct (String.eqb_spec k' k); [discriminate|].
  intros H. now rewrite IH.
Qed.

Lemma map_set_present k v m :
  map_get k m <> None ->
  map fst (map_set k v m) = map fst m /\
  List.length (map_set k v m) = List.length m.
Proof.
  induction m as [|[k' v'] m IH]; cbn; [congruence|].
  destruct (String.eqb_spec k' k) as [->|N]; cbn; [auto|].
  intros H. destruct (IH H) as [-> ->]. auto.
Qed.

Lemma map_get_delete_same k m : map_get k (map_delete k m) = None.
Proof.
  unfold map_delete. induction m as [|[k' v'] m IH]; cbn; [reflexivity|].
  destruct (String.eqb_spec k' k) as [->|N]; cbn; [exact IH|].
  destruct (String.eqb_spec k' k); [contradiction | exact IH].
Qed.

Lemma map_get_delete_other k k0 m :
  k0 <> k -> map_get k0 (map_delete k m) = map_get k0 m.
Proof.
  intros N. unfold map_delete.
  induction m as [|[k' v'] m IH]; cbn; [reflexivity|].
  destruct (String.eqb_spec k' k) as [->|N']; cbn.
  - destruct (String.eqb_spec k k0); [congruence | exact IH].
  - destruct (String.eqb_spec k' k0); [reflexivity | exact IH].
Qed.

Lemma map_delete_absent k m : map_get k m = None -> map_delete k m = m.
Proof.
  unfold map_delete. induction m as [|[k' v'] m IH]; cbn; [reflexivity|].
  destruct (String.eqb_spec k' k); [discriminate|]. cbn.
  intros H. now rewrite IH.
Qed.

Lemma values_ids m :
  Forall (fun kv => fst kv = id (snd kv)) m ->
  map id (map_values m) = map fst m.
Proof.
  unfold map_values. induction 1 as [|[k v] m H _ IH]; cbn; [reflexivity|].
  cbn in H. now rewrite IH, H.
Qed.

(** X7. In every state that a scheduler can reach the registered tasks
    have pairwise distinct ids, and every task is stored under its own
    id. *)
Theorem registry_ids_unique :
  forall fuel s,
    reachable fuel s ->
    NoDup (map id (getTasks s)) /\
    forall k task, In (k, task) (tasks (sched s)) ->
      k = id task /\ map_get (id task) (tasks (sched s)) = Some task.
Proof.
  intros fuel s R. apply Inv_reachable in R.
  pose proof (inv_keys _ R) as D. pose proof (inv_ids _ R) as I.
  split.
  - unfold getTasks. now rewrite values_ids.
  - intros k task Hin. rewrite Forall_forall in I.
    pose proof (I _ Hin) as E. cbn in E. subst k.
    split; [reflexivity | now apply In_map_get].
Qed.

(** X8. After registerTask(task) a lookup of the task's id finds that
    task and every other id is looked up as before. When the id was
    registered already, the task replaces the old one in its position and
    the registry keeps its size and order; otherwise the task goes to the
    end. *)
Theorem registerTask_lookup :
  forall task s s',
    registerTask task s = (Normal tt, s') ->
    map_get (id task) (tasks (sched s')) = Some task /\
    (forall k, k <> id task ->
       map_get k (tasks (sched s')) = map_get k (tasks (sched s))) /\
    (map_get (id task) (tasks (sched s)) <> None ->
       map fst (tasks (sched s')) = map fst (tasks (sched s)) /\
       List.length (tasks (sched s')) = List.length (tasks (sched s))) /\
    (map_get (id task) (tasks (sched s)) = None ->
       tasks (sched s') = tasks (sched s) ++ [(id task, task)]).
Proof.
  intros task s s' [= <-]. cbn [sched set_sched set_tasks tasks].
  repeat split.
  - apply map_get_set_same.
  - intros k N. now apply map_get_set_other.
  - now apply map_set_present.
  - now apply map_set_present.
  - apply map_set_absent.
Qed.


(** X9. After unregisterTask(id) a lookup of the id finds nothing, every
    other id is looked up as before, and the tasks that remain keep their
    order; unregistering an id that is not registered leaves the registry
    as it is. In a reachable state no task with that id is left for a
    cycle to select. *)
Theorem unregisterTask_removes :
  forall fuel taskId s s',
    reachable fuel s ->
    unregisterTask taskId s = (Normal tt, s') ->
    map_get taskId (tasks (sched s')) = None /\
    (forall k, k <> taskId ->
       map_get k (tasks (sched s')) = map_get k (tasks (sched s))) /\
    Subseq (tasks (sched s')) (tasks (sched s)) /\
    (map_get taskId (tasks (sched s)) = None ->
       tasks (sched s') = tasks (sched s)) /\
    (forall t, In t (enabledTasks (sched s')) -> id t <> taskId) /\
    emitted s' = emitted s.
Proof.
  intros fuel taskId s s' R [= <-]. cbn [sched set_sched set_tasks tasks emitted].
  apply Inv_reachable in R.
  repeat split.
  - apply map_get_delete_same.
  - intros k N. now apply map_get_delete_other.
  - apply Subseq_filter_self.
  - apply map_delete_absent.
  - intros t Ht E. unfold enabledTasks in Ht.
    apply (proj1 (sort_In _ _ _)) in Ht. apply filter_In in Ht as [Hin _].
    cbn [tasks] in Hin. unfold map_values in Hin.
    apply in_map_iff in Hin as ([k v] & Ev & Hin). cbn in Ev. subst v.
    unfold map_delete in Hin. apply filter_In in Hin as [Hin Hk].
    pose proof (inv_ids _ R) as I. rewrite Forall_forall in I.
    pose proof (I _ Hin) as Ek. cbn in Ek, Hk. rewrite Ek, E in Hk.
    rewrite String.eqb_refl in Hk. discriminate.
Qed.

End RegistryProperties.

Lemma registry_ids_unique_witness :
  NoDup (map id (getTasks exArmed)) /\
  forall k task, In (k, task) (tasks (sched exArmed)) ->
    k = id task /\ map_get (id task) (tasks (sched exArmed)) = Some task.
Proof. apply (registry_ids_unique 17 exArmed exArmed_reachable). Defined.

Lemma registerTask_lookup_witness :
  map_get "failing"
    (tasks (sched (snd (registerTask exFailing
                          (initSys (exConfig None) exWorld)))))
  = Some exFailing.
Proof.
  apply (registerTask_lookup exFailing (initSys (exConfig None) exWorld)).
  reflexivity.
Defined.

Lemma unregisterTask_removes_witness :
  map_get "failing"
    (tasks (sched (snd (unregisterTask "failing" exArmed)))) = None.
Proof.
  apply (unregisterTask_removes 17 "failing" exArmed).
  - exact exArmed_reachable.
  - reflexivity.
Defined.


Section LifecycleProperties.
Context {Env : Type}.
Implicit Types (s : @Sys Env) (task : @ScheduledTask Env)
  (l : list (@Emission)).

Lemma countType_app ty l1 l2 :
  countType ty (l1 ++ l2) = (countType ty l1 + countType ty l2)%nat.
Proof. unfold countType. now rewrite filter_app, length_app. Qed.

Lemma countType_task ty (ts : list (@ScheduledTask Env)) l :
  ty = ev_start \/ ty = ev_stop \/ ty = ev_error \/ ty = ev_market_closed ->
  Forall (taskEmission ts) l -> countType ty l = O.
Proof.
  intros Hty H. unfold countType. rewrite filter_none; [reflexivity|].
  eapply Forall_impl; [|exact H].
  intros e ([E|[E|E]] & _); rewrite E;
    destruct Hty as [-> | [-> | [-> | ->]]]; reflexivity.
Qed.

Lemma Inv2_init cfg (w : @World Env) : Inv2 (initSys cfg w).
Proof. constructor; cbn; auto; try lia; discriminate. Qed.

Lemma Inv2_afterStop s : Inv2 s -> Inv2 (afterStop s).
Proof.
  intros I. unfold afterStop.
  destruct (isRunning (state (sched s))) eqn:R; [|exact I].
  destruct I as [H1 H2 H3 H4].
  constructor; cbn [sched state set_state set_isRunning set_intervalId
    isRunning consecutiveErrors totalRuns lastRunTime nextRunTime config
    emitted intervalId]; try assumption; try discriminate.
  rewrite !countType_app, H4, R. cbn. lia.
Qed.

Lemma Inv2_afterUpdate results hasError s :
  Inv2 s -> Inv2 (afterUpdate results hasError s).
Proof.
  intros I. unfold afterUpdate.
  set (s1 := set_sched (set_state (updatedState results hasError)) s).
  assert (I1 : Inv2 s1).
  { destruct I as [H1 H2 H3 H4].
    constructor; cbn [s1 set_sched sched state set_state updatedState
      isRunning consecutiveErrors totalRuns lastRunTime nextRunTime config
      emitted intervalId]; try assumption.
    destruct hasError; lia. }
  destruct (_ >=? _); [|exact I1].
  destruct (Inv2_afterStop s1 I1) as [H1 H2 H3 H4].
  constructor; cbn [addEmission sched emitted]; try assumption.
  rewrite !countType_app, H4. cbn. lia.
Qed.

Lemma Inv2_cycleStart s : Inv2 s -> Inv2 (cycleStart s).
Proof.
  intros [H1 H2 H3 H4].
  constructor; cbn [cycleStart set_sched sched state set_state set_runTimes
    isRunning consecutiveErrors totalRuns lastRunTime nextRunTime config
    emitted intervalId]; try assumption.
  unfold JS.getTime. reflexivity.
Qed.

Lemma Inv2_same s s' :
  sched s' = sched s ->
  countType ev_start (emitted s') = countType ev_start (emitted s) ->
  countType ev_stop (emitted s') = countType ev_stop (emitted s) ->
  Inv2 s -> Inv2 s'.
Proof.
  intros Es E1 E2 [H1 H2 H3 H4].
  constructor; rewrite ?Es, ?E1, ?E2; assumption.
Qed.

Lemma Inv2_CycleRun fuel s s' : Inv2 s -> CycleRun fuel s s' -> Inv2 s'.
Proof.
  intros I [mh st G O C | E | results hasError s1 s2 N L U].
  - apply (Inv2_same (cycleStart s)); [reflexivity | | |now apply Inv2_cycleStart];
      cbn [emitted cycleStart set_sched]; rewrite countType_app; cbn; lia.
  - now apply Inv2_cycleStart.
  - destruct (taskLoop_spec _ _ _ _ _ _ _ L) as (_ & Hs & _ & _ & Hr).
    destruct (Hr _ _ eq_refl) as (ex & new & evs & _ & _ & _ & _ & Em & Hev).
    rewrite updateState_spec in U. injection U as <-.
    apply Inv2_afterUpdate.
    apply (Inv2_same (cycleStart s)); [exact Hs | | |now apply Inv2_cycleStart];
      rewrite Em, countType_app, (countType_task _ ex evs); auto.
Qed.

Lemma Inv2_runTasks fuel s s' :
  Inv2 s -> runTasks fuel s = (Normal tt, s') -> Inv2 s'.
Proof.
  intros I H. apply runTasks_spec in H as (_ & H).
  eapply Inv2_CycleRun; eauto.
Qed.

Lemma Inv2_step fuel s op s' : Inv2 s -> step fuel s op s' -> Inv2 s'.
Proof.
  intros I H. inversion H as [s0 op0 s1 En P]; subst s0 op0 s1. clear H.
  assert (Emit : forall e (f : @Scheduler Env -> @Scheduler Env),
            type e <> ev_start -> type e <> ev_stop ->
            state (f (sched s)) = state (sched s) ->
            intervalId (f (sched s)) = intervalId (sched s) ->
            config (f (sched s)) = config (sched s) ->
            Inv2 {| sched := f (sched s); world := world s;
                    timers := timers s; nextTimer := nextTimer s;
                    emitted := emitted s ++ [emission s e] |}).
  { intros e f N1 N2 E1 E2 E3. destruct I as [H1 H2 H3 H4].
    constructor; cbn [sched emitted]; rewrite ?E1, ?E2, ?E3; try assumption.
    rewrite !countType_app, H4. unfold countType. cbn.
    destruct (type e); cbn; try lia; congruence. }
  assert (Keep : forall (f : @Scheduler Env -> @Scheduler Env) w,
            state (f (sched s)) = state (sched s) ->
            intervalId (f (sched s)) = intervalId (sched s) ->
            config (f (sched s)) = config (sched s) ->
            Inv2 {| sched := f (sched s); world := w;
                    timers := timers s; nextTimer := nextTimer s;
                    emitted := emitted s |}).
  { intros f w E1 E2 E3. destruct I as [H1 H2 H3 H4].
    constructor; cbn [sched emitted]; rewrite ?E1, ?E2, ?E3; assumption. }
  destruct op as [task|tid| | | | | |handler|handler|tid|tid|w];
    cbn [perform] in P.
  - injection P as <-. apply Emit; try discriminate; reflexivity.
  - injection P as <-. apply (Keep (set_tasks (map_delete tid))); reflexivity.
  - rewrite start_spec in P.
    destruct (isRunning (state (sched s))) eqn:R.
    + now injection P as <-.
    + cbn zeta in P.
      match type of P with
      | context [runTasks fuel ?x] => assert (I1 : Inv2 x)
      end.
      { destruct I as [H1 H2 H3 H4].
        constructor; cbn [sched state set_state set_isRunning set_intervalId
          isRunning consecutiveErrors totalRuns lastRunTime nextRunTime
          config emitted intervalId]; try assumption; try discriminate.
        rewrite !countType_app, H4, R. cbn. lia. }
      destruct (truthy _).
      * eapply Inv2_runTasks; eauto.
      * now injection P as <-.
  - rewrite stop_spec in P. injection P as <-. now apply Inv2_afterStop.
  - eapply Inv2_runTasks; eauto.
  - rewrite runTasksCaught_eq in P. eapply Inv2_runTasks; eauto.
  - injection P as <-. destruct I as [H1 H2 H3 H4].
    constructor; cbn; assumption.
  - injection P as <-.
    apply (Keep (set_eventHandlers (fun hs => hs ++ [handler]))); reflexivity.
  - injection P as <-.
    apply (Keep (set_eventHandlers (remove_first (hid handler)))); reflexivity.
  - injection P as <-.
    apply (Keep (set_tasks (map_mutate tid (set_enabled true)))); reflexivity.
  - injection P as <-.
    apply (Keep (set_tasks (map_mutate tid (set_enabled false)))); reflexivity.
  - injection P as <-. destruct I as [H1 H2 H3 H4].
    constructor; cbn; assumption.
Qed.

Lemma Inv2_reachable fuel s : reachable fuel s -> Inv2 s.
Proof.
  intros (cfg & w & ops & H).
  assert (I : Inv2 (initSys cfg w)) by apply Inv2_init.
  induction H as [|s op s1 ops s2 H1 _ IH]; [assumption|].
  apply IH. eapply Inv2_step; eauto.
Qed.


(** X11. In every reachable state consecutiveErrors lies between 0 and
    totalRuns. *)
Theorem consecutiveErrors_bounded :
  forall fuel s,
    reachable fuel s ->
    0 <= consecutiveErrors (getState s) <= totalRuns (getState s).
Proof.
  intros fuel s R. apply (inv_counters _ (Inv2_reachable _ _ R)).
Qed.

Lemma afterStop_runTimes s :
  lastRunTime (state (sched (afterStop s))) = lastRunTime (state (sched s)) /\
  nextRunTime (state (sched (afterStop s))) = nextRunTime (state (sched s)).
Proof. unfold afterStop. destruct (isRunning _); split; reflexivity. Qed.

Lemma afterUpdate_runTimes results hasError s :
  lastRunTime (state (sched (afterUpdate results hasError s)))
    = lastRunTime (state (sched s)) /\
  nextRunTime (state (sched (afterUpdate results hasError s)))
    = nextRunTime (state (sched s)).
Proof.
  unfold afterUpdate.
  set (s1 := set_sched (set_state (updatedState results hasError)) s).
  destruct (_ >=? _); [|split; reflexivity].
  cbn [addEmission sched]. apply (afterStop_runTimes s1).
Qed.

(** X12. In every reachable state lastRunTime and nextRunTime are both
    unset, before the first cycle, or both set with nextRunTime equal to
    lastRunTime plus intervalMinutes * 60 * 1000 milliseconds. Every
    completed cycle sets lastRunTime to the time at which it started, also
    a cycle that is skipped for a closed market or for lack of enabled
    tasks. *)
Theorem run_times_in_step :
  forall fuel s,
    reachable fuel s ->
    ((lastRunTime (getState s) = None /\ nextRunTime (getState s) = None) \/
     exists t,
       lastRunTime (getState s) = Some t /\
       nextRunTime (getState s)
         = Some (t + intervalMinutes (config (sched s)) * 60 * 1000)) /\
    forall s',
      runNow fuel s = (Normal tt, s') ->
      lastRunTime (getState s') = Some (now (world s)) /\
      nextRunTime (getState s')
        = Some (now (world s)
                + intervalMinutes (config (sched s)) * 60 * 1000).
Proof.
  intros fuel s R. pose proof (inv_runTimes _ (Inv2_reachable _ _ R)) as H.
  unfold getState. split.
  - destruct (lastRunTime (state (sched s))) as [l|],
      (nextRunTime (state (sched s))) as [n|]; try contradiction.
    + right. exists l. now subst n.
    + now left.
  - intros s' P. unfold runNow in P.
    apply runTasks_spec in P as (_ & P). specialize (P eq_refl).
    destruct P as [mh st G O C | E | results hasError s1 s2 N L U].
    + split; reflexivity.
    + split; reflexivity.
    + rewrite updateState_spec in U. injection U as <-.
      destruct (afterUpdate_runTimes results hasError s1) as (-> & ->).
      destruct (taskLoop_spec _ _ _ _ _ _ _ L) as (_ & -> & _).
      split; reflexivity.
Qed.

(** X13. In every reachable state the emitted start events outnumber the
    emitted stop events by one while the scheduler is running and equal
    them in number while it is not: every stop follows a start of its own,
    also the stop that the circuit breaker makes. *)
Theorem start_stop_events_balance :
  forall fuel s,
    reachable fuel s ->
    countType ev_start (emitted s) =
      (countType ev_stop (emitted s)
       + if isRunning (getState s) then 1 else 0)%nat.
Proof.
  intros fuel s R. apply (inv_balance _ (Inv2_reachable _ _ R)).
Qed.

(** X14. stop() after stop() changes nothing, and start() on a running
    scheduler changes nothing: neither emits an event nor touches the
    timers. After stop() the scheduler is not running, whatever it was
    before. *)
Theorem start_stop_idempotent :
  forall fuel s s1,
    stop s = (Normal tt, s1) ->
    isRunning (getState s1) = false /\
    stop s1 = (Normal tt, s1) /\
    (isRunning (getState s) = true -> start fuel s = (Normal tt, s)) /\
    (isRunning (getState s) = false -> s1 = s).
Proof.
  intros fuel s s1 P. rewrite stop_spec in P. injection P as <-.
  assert (R : isRunning (getState (afterStop s)) = false).
  { unfold getState, afterStop.
    destruct (isRunning (state (sched s))) eqn:E; [reflexivity | exact E]. }
  repeat split.
  - exact R.
  - rewrite stop_spec. unfold afterStop at 1. unfold getState in R.
    now rewrite R.
  - intros E. rewrite start_spec. unfold getState in E. now rewrite E.
  - intros E. unfold afterStop. unfold getState in E. now rewrite E.
Qed.
End LifecycleProperties.


Lemma consecutiveErrors_bounded_witness :
  0 <= consecutiveErrors (getState exArmed) <= totalRuns (getState exArmed).
Proof. apply (consecutiveErrors_bounded 17 exArmed exArmed_reachable). Defined.

Lemma run_times_in_step_witness :
  lastRunTime (getState exArmed) = None /\
  nextRunTime (getState exArmed) = None \/
  exists t,
    lastRunTime (getState exArmed) = Some t /\
    nextRunTime (getState exArmed)
      = Some (t + intervalMinutes (config (sched exArmed)) * 60 * 1000).
Proof. apply (run_times_in_step 17 exArmed exArmed_reachable). Defined.

Lemma start_stop_events_balance_witness :
  countType ev_start (emitted exArmed) =
    (countType ev_stop (emitted exArmed)
     + if isRunning (getState exArmed) then 1 else 0)%nat.
Proof. apply (start_stop_events_balance 17 exArmed exArmed_reachable). Defined.

Lemma start_stop_idempotent_witness :
  isRunning (getState (snd (stop exArmed))) = false.
Proof.
  apply (start_stop_idempotent 17 exArmed (snd (stop exArmed))).
  vm_compute. reflexivity.
Defined.


Section LoopProperties.
Context {Env : Type}.
Implicit Types (s : @Sys Env) (task : @ScheduledTask Env).

Lemma emission_sched s1 s e : sched s1 = sched s -> emission s1 e = emission s e.
Proof. intros E. unfold emission. now rewrite E. Qed.

(** The loop in full: which tasks ran, in which worlds, and what was
    emitted. *)
Lemma taskLoop_trace fuel todo :
  forall results hasError s rs he s',
    taskLoop fuel todo results hasError s = (Normal (rs, he), s') ->
    exists executed new,
      rs = results ++ new /\
      Subseq executed todo /\
      Forall2 (fun r t => (exists w, ranIn r t w) /\ startedOpen fuel s r t)
        new executed /\
      emitted s' = emitted s ++ taskEvents s new /\
      Subseq (filter (fun t => negb (truthy (requiresMarketOpen t))) todo)
        executed /\
      (gate s = None -> executed = todo).
Proof.
  induction todo as [|task rest IH]; intros results hasError s rs he s' H.
  - cbn in H. injection H as <- <- <-. exists [], [].
    unfold taskEvents. cbn. rewrite !app_nil_r. repeat split; constructor.
  - rewrite taskLoop_cons in H.
    pose proof (executeTask_spec task s) as Y.
    destruct (execute task (world s)) as [out w] eqn:Ex. cbn zeta in Y.
    rewrite Y in H. clear Y.
    set (r := resultFor task (now (world s)) (now w) out) in *.
    assert (Cases :
      (gate s <> None /\ truthy (requiresMarketOpen task) = true /\
       taskLoop fuel rest results hasError s = (Normal (rs, he), s')) \/
      (startedOpen fuel s r task /\
       taskLoop fuel rest (results ++ [r])
         (if negb (success r) then true else hasError)
         {| sched := sched s; world := w; timers := timers s;
            nextTimer := nextTimer s;
            emitted := emitted s ++
              [emission s {| type := ev_task_start;
                             timestamp := now (world s);
                             data := TaskData (id task) (Some (name task)) |};
               emission s {| type := if success r then ev_task_complete
                                     else ev_task_error;
                             timestamp := now w;
                             data := ResultData r |}] |}
         = (Normal (rs, he), s'))).
    { destruct (marketHours (config (sched s))) as [mh|] eqn:Hm.
      2:{ right. split; [intros mh' A; congruence | exact H]. }
      destruct (truthy (requiresMarketOpen task)) eqn:Hq; cbn [andb] in H.
      2:{ right. split; [intros mh' _ _ A; congruence | exact H]. }
      destruct (respectMarketHours (config (sched s))) eqn:Hr.
      2:{ right. split; [intros mh' _ A; congruence | exact H]. }
      destruct (isMarketOpen fuel mh (now (world s))) as [st|] eqn:Ho;
        cbn [option_map] in H; [|discriminate].
      destruct (isOpen st) eqn:Io; cbn [negb] in H.
      - right. split; [|exact H].
        intros mh' A _ _. assert (mh' = mh) as -> by congruence.
        exists st. auto.
      - left. repeat split; [|exact H].
        unfold gate. rewrite Hm, Hr. discriminate. }
    destruct Cases as [(G & Hq & L) | (Hopen & L)].
    + destruct (IH _ _ _ _ _ _ L) as (ex & new & E1 & Hsub & Hf & Em & Hn & _).
      exists ex, new. repeat split; try assumption.
      * now constructor.
      * cbn [filter]. rewrite Hq. exact Hn.
      * intros G'. contradiction.
    + destruct (IH _ _ _ _ _ _ L)
        as (ex & new & E1 & Hsub & Hf & Em & Hn & Hall).
      cbn [sched emitted] in Em.
      exists (task :: ex), (r :: new).
      repeat split.
      * rewrite E1, <- app_assoc. reflexivity.
      * now constructor.
      * constructor.
        -- split; [|exact Hopen]. exists (world s). unfold ranIn.
           now rewrite Ex.
        -- eapply Forall2_impl; [|exact Hf].
           intros r0 t (A & B). split; [exact A | exact B].
      * rewrite Em, <- app_assoc. reflexivity.
      * cbn [filter].
        destruct (negb (truthy (requiresMarketOpen task))); now constructor.
      * intros G. f_equal. now apply Hall.
Qed.

Lemma ranIn_resultOf r task (w : @World Env) : ranIn r task w -> resultOf r task.
Proof. intros ->. split; reflexivity. Qed.

Lemma ranIn_shape r task (w : @World Env) :
  ranIn r task w ->
  durationMs r = JS.getTime (endTime r) - JS.getTime (startTime r) /\
  (success r = true <-> error r = None) /\
  (alwaysResolves task -> success r = true).
Proof.
  intros ->. unfold resultFor. cbn. repeat split.
  - destruct (fst (execute task w)); [reflexivity | discriminate].
  - destruct (fst (execute task w)); [reflexivity | discriminate].
  - intros A. now rewrite (A w).
Qed.

(** What the state update of a cycle emits: nothing, or the events of the
    circuit breaker, none of which is about a task. *)
Lemma afterUpdate_tail results he s :
  exists tail,
    emitted (afterUpdate results he s) = emitted s ++ tail /\
    Forall (fun e => eventTask (event e) = None) tail /\
    (List.length tail <= 2)%nat.
Proof.
  unfold afterUpdate.
  set (s1 := set_sched (set_state (updatedState results he)) s).
  destruct (_ >=? _).
  - unfold addEmission, afterStop.
    destruct (isRunning (state (sched s1))); cbn [emitted].
    + eexists [_; _]. rewrite <- app_assoc. cbn [app].
      repeat split; [repeat constructor | cbn; lia].
    + eexists [_]. repeat split; [repeat constructor | cbn; lia].
  - exists []. rewrite app_nil_r. repeat split; [constructor | cbn; lia].
Qed.

Lemma countType_taskEvents s results :
  countType ev_error (taskEvents s results) = O /\
  countType ev_stop (taskEvents s results) = O /\
  countType ev_market_closed (taskEvents s results) = O /\
  countType ev_task_start (taskEvents s results) = List.length results /\
  (countType ev_task_complete (taskEvents s results)
   + countType ev_task_error (taskEvents s results) = List.length results)%nat
  /\
  (Forall (fun r => success r = true) results ->
   countType ev_task_error (taskEvents s results) = O).
Proof.
  induction results as [|r rs (I1 & I2 & I3 & I4 & I5 & I6)].
  - repeat split.
  - unfold countType, taskEvents in *.
    cbn [flat_map app filter emission event type startEventOf endEventOf
         eventTypeEqb].
    destruct (success r) eqn:Hs;
      cbn [filter emission event type eventTypeEqb List.length];
      rewrite ?I1, ?I2, ?I3, ?I4; repeat split; try lia.
    + intros F. inversion F; subst. auto.
    + intros F. inversion F; subst. congruence.
Qed.

(** A completed cycle, with the results of its loop and the tasks that
    produced them. *)
Lemma runTasks_trace fuel s s' :
  runTasks fuel s = (Normal tt, s') ->
  (exists mh st,
     gate s = Some mh /\
     isMarketOpen fuel mh (now (world s)) = Some st /\ isOpen st = false /\
     sched s' = sched (cycleStart s) /\ world s' = world s /\
     timers s' = timers s /\
     emitted s' = emitted s ++
       [emission s {| type := ev_market_closed; timestamp := now (world s);
                      data := StatusData st |}])
  \/
  (enabledTasks (sched s) = [] /\ s' = cycleStart s)
  \/
  (exists results executed s1,
     enabledTasks (sched s) <> [] /\
     taskLoop fuel (enabledTasks (sched s)) [] false (cycleStart s)
       = (Normal (results, negb (forallb success results)), s1) /\
     Subseq executed (enabledTasks (sched s)) /\
     Forall2 (fun r t => (exists w, ranIn r t w) /\ startedOpen fuel s r t)
       results executed /\
     Subseq (filter (fun t => negb (truthy (requiresMarketOpen t)))
               (enabledTasks (sched s))) executed /\
     (gate s = None -> executed = enabledTasks (sched s)) /\
     sched s1 = sched (cycleStart s) /\ timers s1 = timers s /\
     emitted s1 = emitted s ++ taskEvents s results /\
     s' = afterUpdate results (negb (forallb success results)) s1).
Proof.
  intros H. apply runTasks_spec in H as (_ & H). specialize (H eq_refl).
  inversion H as [mh st G O C E | N E | results he s1 s2 N L U E].
  - left. exists mh, st. repeat split; assumption.
  - right. left. split; [assumption | reflexivity].
  - right. right.
    destruct (taskLoop_spec _ _ _ _ _ _ _ L) as (_ & Es & Et & _ & Hr).
    destruct (Hr _ _ eq_refl) as (_ & new0 & _ & E0 & _ & _ & Ehe & _).
    cbn in E0. subst new0. cbn [orb] in Ehe. subst he.
    destruct (taskLoop_trace _ _ _ _ _ _ _ _ L)
      as (ex & new & E1 & Hsub & Hf & Em & Hn & Hall).
    cbn in E1. subst new.
    rewrite updateState_spec in U. injection U as <-.
    exists results, ex, s1. repeat split; assumption.
Qed.

Lemma enabledTasks_In s t :
  In t (enabledTasks (sched s)) -> enabled t = true /\ In t (getTasks s).
Proof.
  unfold enabledTasks. intros H.
  apply (proj1 (sort_In _ _ _)) in H.
  apply filter_In in H as [Hin He]. auto.
Qed.

Lemma isErrorEvent_eqb (e : @Emission) :
  isErrorEvent e = eventTypeEqb (type (event e)) ev_error.
Proof. unfold isErrorEvent. now destruct (type (event e)). Qed.

Lemma countType_error l :
  List.length (filter isErrorEvent l) = countType ev_error l.
Proof.
  unfold countType. f_equal.
Qed.

(** X15. The task events of a completed cycle and its history entries are
    the same results: in a reachable state, a completed runNow emits, for
    some list of results, the pair task_start, then task_complete or
    task_error, of each result in order (the start event carries the id,
    the name and the start time of the result, the second event the result
    itself and its end time), followed by at most two events that are not
    about a task; and the history becomes the last 100 entries of the old
    history followed by those same results. *)
Theorem task_events_match_history :
  forall fuel s s',
    reachable fuel s ->
    runNow fuel s = (Normal tt, s') ->
    exists results tail,
      emitted s' = emitted s ++ taskEvents s results ++ tail /\
      Forall (fun e => eventTask (event e) = None) tail /\
      (List.length tail <= 2)%nat /\
      history (getState s') =
        slice_last 100 (history (getState s) ++ results).
Proof.
  intros fuel s s' R H. apply Inv_reachable in R.
  pose proof (inv_history _ R) as Hh.
  destruct (runTasks_trace _ _ _ H)
    as [(mh & st & _ & _ & _ & Es & _ & _ & Em)
       | [(_ & ->)
         | (results & ex & s1 & _ & _ & _ & _ & _ & _ & Es & _ & Em & ->)]].
  - eexists [], [_]. cbn [taskEvents flat_map app].
    split; [exact Em|]. split; [repeat constructor|]. split; [cbn; lia|].
    unfold getState. rewrite Es, app_nil_r, slice_last_short; auto.
  - exists [], []. cbn [taskEvents flat_map app].
    split; [now rewrite app_nil_r|]. split; [constructor|].
    split; [cbn; lia|].
    rewrite app_nil_r, slice_last_short; auto.
  - destruct (afterUpdate_tail results (negb (forallb success results)) s1)
      as (tail & Et & Ft & Lt).
    exists results, tail.
    split; [rewrite Et, Em, <- app_assoc; reflexivity|].
    split; [exact Ft|]. split; [exact Lt|].
    { destruct (afterUpdate_counters results
                  (negb (forallb success results)) s1) as (_ & _ & E).
      rewrite E. unfold getState. rewrite Es.
      unfold updatedState. cbn [history cycleStart set_sched set_state
        set_runTimes sched state].
      destruct (Nat.ltb_spec 100
                  (List.length (history (state (sched s)) ++ results)));
        [reflexivity|].
      now rewrite slice_last_short. }
Qed.


(** X17. Tasks that never fail never trip the circuit breaker: when the
    body of every registered task resolves in every world and the
    threshold (maxConsecutiveErrors, 10 when omitted) is positive, a
    completed runNow leaves isRunning and the armed timers as they were,
    leaves consecutiveErrors at 0 or at its old value, and emits no error
    event and no task_error event. *)
Theorem resolving_tasks_never_trip :
  forall fuel s s',
    Forall alwaysResolves (getTasks s) ->
    (maxConsecutiveErrors (config (sched s)) ?? 10) > 0 ->
    runNow fuel s = (Normal tt, s') ->
    isRunning (getState s') = isRunning (getState s) /\
    timers s' = timers s /\
    (consecutiveErrors (getState s') = 0 \/
     consecutiveErrors (getState s') = consecutiveErrors (getState s)) /\
    countType ev_error (emitted s') = countType ev_error (emitted s) /\
    countType ev_task_error (emitted s') =
      countType ev_task_error (emitted s).
Proof.
  intros fuel s s' Hall Hmax H.
  destruct (runTasks_trace _ _ _ H)
    as [(mh & st & _ & _ & _ & Es & _ & Et & Em)
       | [(_ & ->)
         | (results & ex & s1 & _ & _ & Hsub & Hf & _ & _ & Es & Et & Em
            & ->)]].
  - unfold getState. rewrite Es, Em, !countType_app. repeat split; auto.
  - repeat split; auto.
  - assert (Hs : Forall (fun r => success r = true) results).
    { clear - Hall Hsub Hf.
      assert (Hex : Forall alwaysResolves ex).
      { apply Forall_forall. intros t Ht.
        apply (Subseq_In _ _ _ Hsub) in Ht.
        apply enabledTasks_In in Ht as [_ Ht].
        exact (proj1 (Forall_forall _ _) Hall t Ht). }
      clear Hsub Hall.
      induction Hf as [|r t rs ts ((w & Hr) & _) _ IH]; constructor.
      - inversion Hex; subst.
        now apply (proj2 (proj2 (ranIn_shape _ _ _ Hr))).
      - inversion Hex; subst. auto. }
    assert (Hb : forallb success results = true).
    { apply forallb_forall. intros r Hr.
      exact (proj1 (Forall_forall _ _) Hs r Hr). }
    rewrite Hb. cbn [negb].
    assert (Eu : afterUpdate results false s1 =
                 set_sched (set_state (updatedState results false)) s1).
    { unfold afterUpdate. cbn zeta.
      replace (consecutiveErrors (state (sched (set_sched
                 (set_state (updatedState results false)) s1))))
        with 0 by reflexivity.
      rewrite Es. change (config (sched (cycleStart s)))
        with (config (sched s)).
      destruct (Z.geb_spec 0 (maxConsecutiveErrors (config (sched s)) ?? 10));
        [lia | reflexivity]. }
    rewrite Eu.
    unfold getState, updatedState, set_sched, set_state.
    cbn [sched state isRunning consecutiveErrors timers emitted].
    rewrite Es, Et, Em, !countType_app.
    destruct (countType_taskEvents s results) as (C1 & _ & _ & _ & _ & C6).
    rewrite C1, (C6 Hs). repeat split; auto.
Qed.


(** X19. A cycle that finds no enabled task is not a run: a completed
    runNow with no enabled task only sets the run times. isRunning,
    totalRuns, consecutiveErrors (which is not reset), the history, the
    tasks, the timers and the world are as before, and nothing is emitted
    but, when the market is closed, the one market_closed event. *)
Theorem idle_cycle_is_not_counted :
  forall fuel s s',
    enabledTasks (sched s) = [] ->
    runNow fuel s = (Normal tt, s') ->
    sched s' = sched (cycleStart s) /\
    totalRuns (getState s') = totalRuns (getState s) /\
    consecutiveErrors (getState s') = consecutiveErrors (getState s) /\
    history (getState s') = history (getState s) /\
    world s' = world s /\
    timers s' = timers s /\
    (emitted s' = emitted s \/
     exists st,
       isOpen st = false /\
       emitted s' = emitted s ++
         [emission s {| type := ev_market_closed; timestamp := now (world s);
                        data := StatusData st |}]).
Proof.
  intros fuel s s' E H.
  destruct (runTasks_trace _ _ _ H)
    as [(mh & st & _ & _ & Hc & Es & Ew & Et & Em)
       | [(_ & ->) | (results & ex & s1 & N & _)]].
  - unfold getState. rewrite Es. repeat split; auto.
    right. exists st. auto.
  - repeat split; auto.
  - contradiction.
Qed.

End LoopProperties.

Lemma exZero_reachable : reachable 17 exZero.
Proof.
  exists (exConfig (Some 0)), exWorld,
    [OpRegisterTask (exTask "A" None Resolved); OpStart].
  apply steps_runOps. vm_compute. reflexivity.
Defined.

Lemma task_events_match_history_witness :
  exists results tail,
    emitted (snd (runNow 17 exArmed))
      = emitted exArmed ++ taskEvents exArmed results ++ tail /\
    history (getState (snd (runNow 17 exArmed))) =
      slice_last 100 (history (getState exArmed) ++ results).
Proof.
  destruct (task_events_match_history 17 exArmed (snd (runNow 17 exArmed)))
    as (results & tail & H1 & _ & _ & H4).
  - exact exArmed_reachable.
  - vm_compute. reflexivity.
  - exists results, tail. auto.
Defined.


Lemma resolving_tasks_never_trip_witness :
  isRunning (getState (snd (runNow 17 exThree)))
    = isRunning (getState exThree) /\
  countType ev_error (emitted (snd (runNow 17 exThree)))
    = countType ev_error (emitted exThree).
Proof.
  destruct (resolving_tasks_never_trip 17 exThree (snd (runNow 17 exThree)))
    as (H1 & _ & _ & H4 & _).
  - repeat constructor.
  - vm_compute. reflexivity.
  - vm_compute. reflexivity.
  - auto.
Defined.


Lemma idle_cycle_is_not_counted_witness :
  totalRuns (getState (snd (runNow 17 (initSys (exConfig None) exWorld))))
    = totalRuns (getState (initSys (exConfig None) exWorld)).
Proof.
  destruct (idle_cycle_is_not_counted 17 (initSys (exConfig None) exWorld)
              (snd (runNow 17 (initSys (exConfig None) exWorld))))
    as (_ & H & _).
  - reflexivity.
  - vm_compute. reflexivity.
  - exact H.
Defined.

Section HistoryProperties.
Context {Env : Type}.
Implicit Types (s : @Sys Env) (task : @ScheduledTask Env).

Lemma recorded_app (l x : list (@Emission)) r :
  recorded l r -> recorded (l ++ x) r.
Proof.
  intros (A & B & e & He & Ee). repeat split; try assumption; try apply B.
  exists e. split; [apply in_or_app; now left | exact Ee].
Qed.

Lemma recorded_keep s s' x :
  history (state (sched s')) = history (state (sched s)) ->
  emitted s' = emitted s ++ x ->
  Forall (recorded (emitted s)) (history (state (sched s))) ->
  Forall (recorded (emitted s')) (history (state (sched s'))).
Proof.
  intros -> -> H. eapply Forall_impl; [|exact H].
  intros r. apply recorded_app.
Qed.

Lemma recorded_results s results executed :
  Forall2 (fun r t => exists w : @World Env, ranIn r t w) results executed ->
  Forall (recorded (emitted s ++ taskEvents s results)) results.
Proof.
  intros H. apply Forall_forall. intros r Hr.
  assert (S : exists t (w : @World Env), ranIn r t w).
  { clear - H Hr. induction H as [|r0 t rs ts (w & Hw) _ IH].
    - destruct Hr.
    - destruct Hr as [<-|Hr]; [now exists t, w | auto]. }
  destruct S as (t & w & Hw).
  destruct (ranIn_shape _ _ _ Hw) as (A & B & _).
  repeat split; try assumption; try apply B.
  exists (emission s (endEventOf r)). split; [|reflexivity].
  apply in_or_app. right. unfold taskEvents. apply in_flat_map.
  exists r. split; [exact Hr | cbn; auto].
Qed.

Lemma Forall_slice_last {A} (P : A -> Prop) n l :
  Forall P l -> Forall P (slice_last n l).
Proof.
  intros H. unfold slice_last.
  rewrite <- (firstn_skipn (List.length l - n) l) in H.
  now apply Forall_app in H as [_ H].
Qed.

Lemma recorded_runTasks fuel s s' :
  runTasks fuel s = (Normal tt, s') ->
  Forall (recorded (emitted s)) (history (state (sched s))) ->
  Forall (recorded (emitted s')) (history (state (sched s'))).
Proof.
  intros H I.
  destruct (runTasks_trace _ _ _ H)
    as [(mh & st & _ & _ & _ & Es & _ & _ & Em)
       | [(_ & ->)
         | (results & ex & s1 & _ & _ & _ & Hf & _ & _ & Es & _ & Em & ->)]].
  - eapply recorded_keep; [now rewrite Es | exact Em | exact I].
  - exact I.
  - destruct (afterUpdate_tail results (negb (forallb success results)) s1)
      as (tail & Et & _ & _).
    destruct (afterUpdate_counters results
                (negb (forallb success results)) s1) as (_ & _ & E).
    unfold getState in E. rewrite E, Et, Em. clear E Et.
    assert (F : Forall (recorded ((emitted s ++ taskEvents s results) ++ tail))
                  (history (state (sched s1)) ++ results)).
    { apply Forall_app. split.
      - rewrite Es. rewrite <- app_assoc.
        eapply Forall_impl; [|exact I]. intros r. apply recorded_app.
      - eapply Forall_impl; [intros r; apply recorded_app|].
        eapply recorded_results.
        eapply Forall2_impl; [|exact Hf]. intros r t (A & _). exact A. }
    unfold updatedState. cbn [history].
    destruct (100 <? _)%nat; [now apply Forall_slice_last | exact F].
Qed.

Lemma recorded_step fuel s op s' :
  step fuel s op s' ->
  Forall (recorded (emitted s)) (history (state (sched s))) ->
  Forall (recorded (emitted s')) (history (state (sched s'))).
Proof.
  intros H I. inversion H as [s0 op0 s1 En P]; subst s0 op0 s1. clear H.
  destruct op as [task|tid| | | | | |handler|handler|tid|tid|w];
    cbn [perform] in P.
  - injection P as <-. eapply recorded_keep; [| |exact I]; reflexivity.
  - injection P as <-. apply (recorded_keep s _ []); auto.
    cbn. now rewrite app_nil_r.
  - rewrite start_spec in P.
    destruct (isRunning (state (sched s))) eqn:R.
    + now injection P as <-.
    + cbn zeta in P.
      match type of P with
      | context [runTasks fuel ?x] =>
          assert (I1 : Forall (recorded (emitted x))
                         (history (state (sched x))))
      end.
      { eapply recorded_keep; [| |exact I]; reflexivity. }
      destruct (truthy _).
      * eapply recorded_runTasks; eauto.
      * now injection P as <-.
  - rewrite stop_spec in P. injection P as <-.
    unfold afterStop. destruct (isRunning _); [|exact I].
    eapply recorded_keep; [| |exact I]; reflexivity.
  - eapply recorded_runTasks; eauto.
  - rewrite runTasksCaught_eq in P. eapply recorded_runTasks; eauto.
  - injection P as <-. constructor.
  - injection P as <-. apply (recorded_keep s _ []); auto.
    cbn. now rewrite app_nil_r.
  - injection P as <-. apply (recorded_keep s _ []); auto.
    cbn. now rewrite app_nil_r.
  - injection P as <-. apply (recorded_keep s _ []); auto.
    cbn. now rewrite app_nil_r.
  - injection P as <-. apply (recorded_keep s _ []); auto.
    cbn. now rewrite app_nil_r.
  - injection P as <-. apply (recorded_keep s _ []); auto.
    cbn. now rewrite app_nil_r.
Qed.

(** X20. Every entry of the history of a reachable scheduler is a result
    that executeTask built and announced: its durationMs is the difference
    of its end and start times, it is a success exactly when it carries no
    error message, and the subscribers were sent the task_complete or
    task_error event that carries it. *)
Theorem history_entries_were_emitted :
  forall fuel s,
    reachable fuel s ->
    Forall (recorded (emitted s)) (getHistory None s).
Proof.
  intros fuel s (cfg & w & ops & H). unfold getHistory.
  assert (I : Forall (recorded (emitted (initSys cfg w)))
                (history (state (sched (initSys cfg w))))) by constructor.
  induction H as [|s op s1 ops s2 H1 _ IH]; [assumption|].
  apply IH. eapply recorded_step; eauto.
Qed.

End HistoryProperties.

Lemma history_entries_were_emitted_witness :
  List.length (getHistory None (runOps 17 [OpTick] exArmed)) = 1%nat /\
  Forall (recorded (emitted (runOps 17 [OpTick] exArmed)))
    (getHistory None (runOps 17 [OpTick] exArmed)).
Proof.
  split; [reflexivity|].
  apply (history_entries_were_emitted 17 (runOps 17 [OpTick] exArmed)).
  apply (reachable_step 17 exArmed OpTick _ exArmed_reachable).
  constructor; vm_compute; reflexivity.
Defined.


Section ApiProperties.
Context {Env : Type}.
Implicit Types (s : @Sys Env) (task : @ScheduledTask Env)
  (h : SchedulerEventHandler).

Lemma callHandlers_app hs1 hs2 e :
  callHandlers (hs1 ++ hs2) e = callHandlers hs1 e ++ callHandlers hs2 e.
Proof. induction hs1 as [|h hs IH]; cbn; [reflexivity | now rewrite IH]. Qed.

Lemma remove_first_absent i hs :
  ~ In i (map hid hs) -> remove_first i hs = hs.
Proof.
  induction hs as [|h hs IH]; cbn; [reflexivity|]. intros N.
  destruct (Nat.eqb_spec (hid h) i) as [E|_]; [tauto|].
  rewrite IH; [reflexivity | tauto].
Qed.

Lemma remove_first_present i hs :
  In i (map hid hs) ->
  exists before h after,
    hs = before ++ h :: after /\ hid h = i /\
    ~ In i (map hid before) /\
    remove_first i hs = before ++ after.
Proof.
  induction hs as [|h hs IH]; cbn; [intros []|]. intros H.
  destruct (Nat.eqb_spec (hid h) i) as [E|N].
  - exists [], h, hs. repeat split; auto.
  - destruct H as [H|H]; [contradiction|].
    destruct (IH H) as (b & h' & a & E1 & E2 & E3 & E4).
    exists (h :: b), h', a. cbn. rewrite E1 at 1. rewrite E4.
    repeat split; auto. intros [F|F]; auto.
Qed.

Lemma remove_first_app_present i hs hs' :
  In i (map hid hs) ->
  remove_first i (hs ++ hs') = remove_first i hs ++ hs'.
Proof.
  induction hs as [|h hs IH]; cbn; [intros []|]. intros H.
  destruct (Nat.eqb_spec (hid h) i) as [E|N]; [reflexivity|].
  destruct H as [H|H]; [contradiction|]. now rewrite IH.
Qed.

Lemma map_mutate_absent k (f : @ScheduledTask Env -> @ScheduledTask Env) m :
  map_get k m = None -> map_mutate k f m = m.
Proof.
  induction m as [|[k' v'] m IH]; cbn; [reflexivity|].
  destruct (String.eqb k' k); [discriminate|]. intros H. now rewrite IH.
Qed.

Lemma map_mutate_round_trip k m task :
  map_get k m = Some task -> enabled task = true ->
  map_mutate k (set_enabled true) (map_mutate k (set_enabled false) m) = m.
Proof.
  induction m as [|[k' v'] m IH]; cbn; [discriminate|].
  destruct (String.eqb k' k) eqn:E; cbn; rewrite E.
  - intros [= ->] He. destruct task. cbn in He. subst. reflexivity.
  - intros G He. now rewrite IH.
Qed.

Lemma set_tasks_same s
    (f : list (string * @ScheduledTask Env)
         -> list (string * @ScheduledTask Env)) :
  f (tasks (sched s)) = tasks (sched s) -> set_sched (set_tasks f) s = s.
Proof.
  destruct s as [[c t st i hs] w ts n em]. unfold set_sched, set_tasks. cbn.
  now intros ->.
Qed.

(** X21. getHistory(limit) returns the most recent entries: for a positive
    limit the last min(limit, length) entries of the history, in order;
    for a limit of 0 or no limit the whole history, since 0 is falsy. After
    clearHistory() it returns nothing, whatever the limit. *)
Theorem getHistory_suffix :
  forall limit s,
    (exists older, history (getState s) = older ++ getHistory limit s) /\
    List.length (getHistory limit s) =
      match limit with
      | Some (S n) => Nat.min (S n) (List.length (history (getState s)))
      | _ => List.length (history (getState s))
      end /\
    getHistory limit (snd (clearHistory s)) = [].
Proof.
  intros limit s. unfold getHistory, getState, slice_last.
  destruct limit as [[|n]|].
  - split; [now exists []|]. split; reflexivity.
  - split; [|split].
    + eexists. symmetry. apply firstn_skipn.
    + rewrite length_skipn. lia.
    + reflexivity.
  - split; [now exists []|]. split; reflexivity.
Qed.

(** X22. A handler added by on(handler) is called last: after on, every
    event is delivered to the earlier subscribers exactly as before, in
    the same order and whether or not some of them throw, and then to the
    new handler. The tasks, the state and the timers are not touched. *)
Theorem on_delivers_last :
  forall h s s',
    on h s = (Normal tt, s') ->
    (forall e, deliveries (emission s' e) =
               deliveries (emission s e) ++ [(hid h, hthrows h e)]) /\
    tasks (sched s') = tasks (sched s) /\
    state (sched s') = state (sched s) /\
    timers s' = timers s /\
    emitted s' = emitted s.
Proof.
  intros h s s' [= <-]. repeat split.
  intros e. unfold emission. cbn. apply callHandlers_app.
Qed.

(** X23. off(handler) removes one subscription, the earliest: a handler
    that is not subscribed leaves the subscribers as they are, and
    otherwise the first occurrence of the handler is taken out and all the
    other subscriptions, later ones of the same handler among them, stay
    in their order. *)
Theorem off_removes_first_subscription :
  forall h s s',
    off h s = (Normal tt, s') ->
    (~ In (hid h) (map hid (eventHandlers (sched s))) ->
       eventHandlers (sched s') = eventHandlers (sched s)) /\
    (In (hid h) (map hid (eventHandlers (sched s))) ->
       exists before h' after,
         eventHandlers (sched s) = before ++ h' :: after /\
         hid h' = hid h /\
         ~ In (hid h) (map hid before) /\
         eventHandlers (sched s') = before ++ after).
Proof.
  intros h s s' [= <-]. cbn. split.
  - apply remove_first_absent.
  - apply remove_first_present.
Qed.

(** X24. on(handler) followed by off(handler) gives back the very same
    system when the handler was not subscribed before; when it was, the
    pair moves its earliest subscription to the end. *)
Theorem on_off_round_trip :
  forall h s s1 s2,
    on h s = (Normal tt, s1) ->
    off h s1 = (Normal tt, s2) ->
    (~ In (hid h) (map hid (eventHandlers (sched s))) -> s2 = s) /\
    (In (hid h) (map hid (eventHandlers (sched s))) ->
       eventHandlers (sched s2) =
         remove_first (hid h) (eventHandlers (sched s)) ++ [h]).
Proof.
  intros h s s1 s2 [= <-] [= <-]. split.
  - intros N. destruct s as [[c t st i hs] w ts n em]. cbn in *.
    unfold set_sched, set_eventHandlers. cbn.
    assert (E : remove_first (hid h) (hs ++ [h]) = hs).
    { clear - N. induction hs as [|g hs IH]; cbn.
      - now rewrite Nat.eqb_refl.
      - cbn in N. destruct (Nat.eqb_spec (hid g) (hid h)) as [E|_]; [tauto|].
        rewrite IH; [reflexivity | tauto]. }
    now rewrite E.
  - intros H. cbn. now apply remove_first_app_present.
Qed.

(** X25. disableTask(id) followed by enableTask(id) gives back the very
    same system when the task was enabled; for an id that is not
    registered both calls do nothing; and whatever the flag was, the task
    is enabled afterwards, in its old position in the registry. *)
Theorem disable_enable_round_trip :
  forall taskId s s1 s2,
    disableTask taskId s = (Normal tt, s1) ->
    enableTask taskId s1 = (Normal tt, s2) ->
    (map_get taskId (tasks (sched s)) = None -> s1 = s /\ s2 = s) /\
    (forall task,
       map_get taskId (tasks (sched s)) = Some task ->
       map_get taskId (tasks (sched s2)) = Some (set_enabled true task) /\
       map fst (tasks (sched s2)) = map fst (tasks (sched s)) /\
       (enabled task = true -> s2 = s)).
Proof.
  intros taskId s s1 s2 [= <-] [= <-].
  destruct s as [[c t st i hs] w ts n em].
  unfold set_sched, set_tasks. cbn. split.
  - intros G. rewrite (map_mutate_absent _ _ _ G).
    rewrite (map_mutate_absent _ _ _ G). split; reflexivity.
  - intros task G. repeat split.
    + rewrite (map_get_mutate _ (set_enabled true) _ _
                 (map_get_mutate _ (set_enabled false) _ _ G)).
      reflexivity.
    + now rewrite !map_mutate_keys.
    + intros He. now rewrite (map_mutate_round_trip _ _ _ G He).
Qed.

(** X26. What the constructor of the orchestrator leaves behind: the
    registry holds the default tasks of the features that are switched on,
    in the order position-monitor, entry-scanner, roll-manager; a cycle
    takes them in the order position-monitor, roll-manager, entry-scanner
    of their priorities 100, 75 and 50; each of them asks for an open
    market; the scheduler has a market-hours configuration, the given one
    or else the US one, and shares the schedule with the orchestrator;
    and the task_start events of these registrations reached no
    subscriber, one event per task. *)
Theorem orchestrator_default_tasks :
  forall cfg (w : @World Env),
    let o := newTradingOrchestrator cfg w in
    map id (getTasks (osys o)) =
      (if enablePositionMonitoring cfg then ["position-monitor"] else []) ++
      (if enableEntryScanning cfg then ["entry-scanner"] else []) ++
      (if enableRollManagement cfg then ["roll-manager"] else []) /\
    map id (enabledTasks (sched (osys o))) =
      (if enablePositionMonitoring cfg then ["position-monitor"] else []) ++
      (if enableRollManagement cfg then ["roll-manager"] else []) ++
      (if enableEntryScanning cfg then ["entry-scanner"] else []) /\
    Forall (fun t => requiresMarketOpen t = Some true /\ enabled t = true)
      (getTasks (osys o)) /\
    marketHours (config (sched (osys o))) =
      Some (match marketHours (schedule cfg) with
            | Some mh => mh
            | None => getUSMarketHoursConfig
            end) /\
    config (sched (osys o)) = schedule (getConfig o) /\
    map (fun e => (type (event e), eventTask (event e), deliveries e))
        (emitted (osys o)) =
      map (fun t => (ev_task_start, Some (id t), [])) (getTasks (osys o)).
Proof.
  intros [sch a b c d] w.
  unfold newTradingOrchestrator, registerDefaultTasks, getTasks, getConfig.
  cbn [schedule enablePositionMonitoring enableEntryScanning
       enableRollManagement dryRun].
  destruct (marketHours sch) as [mh|] eqn:Hm;
    destruct a, b, c; cbn; rewrite ?Hm;
    repeat split; repeat constructor.
Qed.

(** X27. Switching on a feature whose task the constructor did not
    register has no effect on the scheduler: when a flag was false at
    construction, setFeatureEnabled(flag, b) on the new orchestrator sets
    the flag to b and leaves the whole scheduler as it is; there is no
    task with the id of that feature, before or after. *)
Theorem feature_without_task :
  forall cfg (w : @World Env) feature b o',
    get_feature feature cfg = false ->
    setFeatureEnabled feature b (newTradingOrchestrator cfg w)
      = (Normal tt, o') ->
    get_feature feature (getConfig o') = b /\
    osys o' = osys (newTradingOrchestrator cfg w) /\
    Forall (fun t => id t <> taskMap feature) (getTasks (osys o')).
Proof.
  intros [sch a c1 c2 d] w feature b o' Hf H.
  unfold setFeatureEnabled in H. cbv [bind modify] in H.
  assert (K : forall bb,
            map_mutate (taskMap feature) (set_enabled bb)
              (tasks (sched (osys (newTradingOrchestrator
                 {| schedule := sch; enablePositionMonitoring := a;
                    enableEntryScanning := c1; enableRollManagement := c2;
                    dryRun := d |} w))))
            = tasks (sched (osys (newTradingOrchestrator
                 {| schedule := sch; enablePositionMonitoring := a;
                    enableEntryScanning := c1; enableRollManagement := c2;
                    dryRun := d |} w))) /\
            Forall (fun t : @ScheduledTask Env => id t <> taskMap feature)
              (map_values (tasks (sched (osys (newTradingOrchestrator
                 {| schedule := sch; enablePositionMonitoring := a;
                    enableEntryScanning := c1; enableRollManagement := c2;
                    dryRun := d |} w)))))).
  { intros bb. unfold newTradingOrchestrator, registerDefaultTasks.
    cbn [schedule enablePositionMonitoring enableEntryScanning
         enableRollManagement dryRun].
    destruct feature; cbn in Hf; subst;
      destruct (marketHours sch); try destruct a; try destruct c1;
      try destruct c2; cbn; split; try reflexivity;
      repeat constructor; discriminate. }
  set (o := newTradingOrchestrator _ w) in *.
  assert (E : osys o' = osys o /\
              oconfig o' = set_feature feature b (oconfig o)).
  { destruct b; unfold onScheduler, enableTask, disableTask, modify in H;
      cbn in H; injection H as <-; cbn [osys oconfig]; split;
      try reflexivity; apply set_tasks_same, K. }
  destruct E as [E1 E2]. repeat split.
  - unfold getConfig. rewrite E2. now destruct feature.
  - exact E1.
  - unfold getTasks. rewrite E1. apply (proj2 (K true)).
Qed.

End ApiProperties.

Lemma on_delivers_last_witness :
  deliveries (emission (snd (on exHandler exThree))
                {| type := ev_stop; timestamp := 0; data := NoData |})
  = [(1%nat, true)].
Proof.
  apply (on_delivers_last exHandler exThree (snd (on exHandler exThree))
           eq_refl).
Defined.

Lemma off_removes_first_subscription_witness :
  eventHandlers (sched (snd (off exHandler exThree)))
    = eventHandlers (sched exThree).
Proof.
  apply (off_removes_first_subscription exHandler exThree
           (snd (off exHandler exThree)) eq_refl).
  cbn. tauto.
Defined.

Lemma on_off_round_trip_witness :
  snd (off exHandler (snd (on exHandler exThree))) = exThree.
Proof.
  apply (on_off_round_trip exHandler exThree (snd (on exHandler exThree))
           (snd (off exHandler (snd (on exHandler exThree)))) eq_refl eq_refl).
  cbn. tauto.
Defined.

Lemma disable_enable_round_trip_witness :
  snd (enableTask "A" (snd (disableTask "A" exThree))) = exThree.
Proof.
  apply (disable_enable_round_trip "A" exThree
           (snd (disableTask "A" exThree))
           (snd (enableTask "A" (snd (disableTask "A" exThree))))
           eq_refl eq_refl)
    with (task := exTask "A" (Some 100) Resolved); reflexivity.
Defined.

Lemma feature_without_task_witness :
  let cfg :=
    {| schedule := exConfig None; enablePositionMonitoring := true;
       enableEntryScanning := false; enableRollManagement := true;
       dryRun := true |} in
  get_feature EnableEntryScanning
    (getConfig (snd (setFeatureEnabled EnableEntryScanning true
                       (newTradingOrchestrator cfg exWorld)))) = true /\
  map id (getTasks (osys (snd (setFeatureEnabled EnableEntryScanning true
                                 (newTradingOrchestrator cfg exWorld)))))
    = ["position-monitor"; "roll-manager"].
Proof.
  intros cfg.
  destruct (feature_without_task cfg exWorld EnableEntryScanning true
              (snd (setFeatureEnabled EnableEntryScanning true
                      (newTradingOrchestrator cfg exWorld))))
    as (H1 & H2 & _).
  - reflexivity.
  - reflexivity.
  - split; [exact H1 | rewrite H2; reflexivity].
Defined.
